(** * Virtual event management: the in-memory store and its route handlers

    A shallow embedding of the Express route handlers of
    [routes/event.routes.js] (the revision with request validation and
    logging) and [routes/auth.routes.js] (the revision that builds a user
    profile), over the three maps of [db/inMemoryDb.js], together with
    [utils/email.js].

    Conventions of the embedding.
    - A handler is a function from the request and the store to the new store
      and the HTTP response.  What the handler reads from the outside world
      (the clock, the mail transport, bcrypt) is passed in an [Env].
    - A JavaScript [Map] keyed by strings is a [gmap string _]; a [Set] of ids
      is a [gset string] (its iteration order only fixes the order in which
      mails are sent).  [db.users] is kept as a list in insertion order,
      because users are looked up by scanning [db.users.values()] for the
      first record with a given id.
    - A body field that may be missing is an [option]; JavaScript truthiness
      is written out ([truthy], [js_or]).  The [capacity] of a request body is
      an integer-valued JSON number.  [parseInt] reads the decimal string of
      its argument: below [10^21] in absolute value that string is the
      number's digits and [parseInt] gives the number back; from [10^21] on
      the string is in exponent form ([1e+21]) and [parseInt] stops at its
      first character that is no digit.  What it reads there depends on the
      shortest decimal that prints the floating-point number, and is taken
      from the [Env].
    - A rejected promise or a thrown exception is the [Throw] case of [Exc].
    - [run] handles the requests one after the other, each to its end.  The
      server starts on the next request while a handler awaits its mails;
      the registration, the update and the deletion are therefore also
      given in two parts, split at that [await], so that a request can be
      handled between the two.
    - Logging ([logEvent]) writes to a separate log map and to files, never
      to the store, and is left out. *)

From stdpp Require Import base gmap sets list strings pretty.
From Stdlib Require Import ZArith Lia Ascii Sorted.
From Stdlib Require QArith.

(** ** JavaScript values *)

(** Truthiness of a string: only the empty string is falsy. *)
Definition truthy (s : string) : bool := negb (String.eqb s "").

(** Truthiness of a string field that may be [undefined]. *)
Definition truthy_opt (o : option string) : bool :=
  match o with Some s => truthy s | None => false end.

(** Truthiness of a number field that may be [undefined]: [0] is falsy. *)
Definition truthy_num (o : option Z) : bool :=
  match o with Some c => negb (c =? 0)%Z | None => false end.

(** [o || d] for a string field. *)
Definition js_or (o : option string) (d : string) : string :=
  match o with Some s => if truthy s then s else d | None => d end.

(** [o || d] for a number field. *)
Definition js_or_num (o : option Z) (d : Z) : Z :=
  match o with Some c => if (c =? 0)%Z then d else c | None => d end.

(** [o !== s]: a missing field is different from every string. *)
Definition differs (o : option string) (s : string) : bool :=
  match o with Some x => negb (String.eqb x s) | None => true end.

Definition differs_num (o : option Z) (c : Z) : bool :=
  match o with Some x => negb (x =? c)%Z | None => true end.

(** ** Exceptions and promises *)

Inductive Exc (A : Type) : Type :=
| Return (a : A)
| Throw (message : string).
Arguments Return {A} a.
Arguments Throw {A} message.

Definition bind {A B} (c : Exc A) (k : A → Exc B) : Exc B :=
  match c with Return a => k a | Throw m => Throw m end.

Notation "x ←! c ; k" := (bind c (λ x, k))
  (at level 20, c at level 100, k at level 200, right associativity,
   format "x  ←!  c ;  '/' k").

(** [try { c } catch (e) { h e }] *)
Definition try_catch {A} (c : Exc A) (h : string → Exc A) : Exc A :=
  match c with Return a => Return a | Throw m => h m end.

(** [xs.map(f)] for a callback that may throw: the first throw aborts the map.
    Also [await Promise.all(xs.map(async f))]: the first rejection rejects. *)
Fixpoint mapM {A B} (f : A → Exc B) (xs : list A) : Exc (list B) :=
  match xs with
  | [] => Return []
  | x :: xs' => y ←! f x; ys ←! mapM f xs'; Return (y :: ys)
  end.

(** [await Promise.allSettled(ps)]: waits for every promise, never rejects. *)
Definition allSettled {A} (ps : list (Exc A)) : Exc unit := Return tt.

(** ** The data model *)

Module Profile.
Record t : Type := mk {
  name : string;
  bio : string;
  interests : list string;
  createdAt : string;
  eventsOrganized : Z;
  eventsAttended : Z
}.
End Profile.

Module User.
Record t : Type := mk {
  email : string;
  password : string;
  name : string;
  role : string;
  id : string;
  profile : Profile.t
}.
End User.

Module Event.
Record t : Type := mk {
  id : string;
  title : string;
  description : string;
  date : string;
  time : string;
  capacity : Z;
  createdBy : string;
  participants : gset string;
  createdAt : string;
  updatedAt : option string
}.

(** [event.participants.size] *)
Definition size (e : t) : Z := Z.of_nat (size (participants e)).

(** The event object after [event.participants.add(userId)]. *)
Definition add_participant (userId : string) (e : t) : t :=
  mk (id e) (title e) (description e) (date e) (time e) (capacity e)
     (createdBy e) ({[userId]} ∪ participants e) (createdAt e) (updatedAt e).
End Event.

(** [class InMemoryDb]: the three maps of the singleton store. *)
Record InMemoryDb : Type := mkDb {
  users : list User.t;
  events : gmap string Event.t;
  userEvents : gmap string (gset string)
}.

(** [new InMemoryDb()] *)
Definition emptyDb : InMemoryDb := mkDb [] ∅ ∅.

Definition set_events (f : gmap string Event.t → gmap string Event.t)
    (db : InMemoryDb) : InMemoryDb :=
  mkDb (users db) (f (events db)) (userEvents db).

Definition set_userEvents
    (f : gmap string (gset string) → gmap string (gset string))
    (db : InMemoryDb) : InMemoryDb :=
  mkDb (users db) (events db) (f (userEvents db)).

(** [db.users.has(email)] *)
Definition users_has (email : string) (db : InMemoryDb) : bool :=
  existsb (λ u, String.eqb (User.email u) email) (users db).

(** [Array.from(db.users.values()).find(user => user.id === userId)] *)
Definition find_user (userId : string) (db : InMemoryDb) : option User.t :=
  find (λ u, String.eqb (User.id u) userId) (users db).

(** ** The outside world *)

Record Env : Type := mkEnv {
  now : N;                 (* Date.now() *)
  isoNow : string;         (* new Date().toISOString() *)
  mail : string → bool;    (* does transporter.sendMail to this address resolve? *)
  hash : string → string;  (* bcrypt.hash(password, 10) *)
  parseIntExp : Z → Z      (* parseInt(String(c)) for a c printed in exponent form *)
}.

(** [parseInt(c)] for an integer-valued number [c]: the argument is turned
    into a string first, which has all the digits of [c] only below [10^21]. *)
Definition parseInt (env : Env) (c : Z) : Z :=
  if (Z.abs c <? 10 ^ 21)%Z then c else parseIntExp env c.

(** [utils/email.js], [sendEmail]: rethrows a transport failure. *)
Definition sendEmail (env : Env) (to : string) : Exc unit :=
  if mail env to then Return tt else Throw "Failed to send email".

(** A notification prepared for [sendBulkEmails]; only the address matters
    to the transport. *)
Record Notification : Type := mkNotification {
  n_email : string;
  n_subject : string
}.

(** [utils/email.js], [sendBulkEmails].  The callback of [recipients.map]
    destructures its argument, which throws a [TypeError] on [undefined];
    the surrounding [try] turns that into the error below.  A mail that
    fails to send only settles its promise as rejected. *)
Definition sendBulkEmails (env : Env) (recipients : list (option Notification))
    : Exc unit :=
  try_catch
    (emailPromises ←! mapM (λ r : option Notification,
                        match r with
                        | Some n => Return (sendEmail env (n_email n))
                        | None => Throw "Cannot destructure property 'email'"
                        end) recipients;
     allSettled emailPromises)
    (λ _, Throw "Failed to send some notifications").

(** ** Responses *)

Inductive Body : Type :=
| Error (error : string)
| ErrorRequired (error : string) (required : list string)
| ErrorCapacity (error : string) (currentParticipants : Z)
| ErrorDetails (error details : string)
| EventCreated (message id title description date time : string)
    (capacity : Z) (createdAt : string)
| EventUpdated (message id title description date time : string)
    (capacity participantCount : Z) (updatedAt : option string)
    (updatedFields : list string)
| EventDeleted (message id title : string) (participantsNotified : nat)
| Registered (message eventId title date time : string) (spotsRemaining : Z)
| UserRegistered (message role : string).

Record Response : Type := mkResponse {
  status : nat;
  body : Body
}.

(** ** Request bodies *)

(** The body of [POST /events] and of [PUT /events/:id]. *)
Record EventBody : Type := mkEventBody {
  b_title : option string;
  b_description : option string;
  b_date : option string;
  b_time : option string;
  b_capacity : option Z
}.

(** The body of [POST /auth/register]. *)
Record UserBody : Type := mkUserBody {
  b_email : string;
  b_password : string;
  b_name : string;
  b_role : option string
}.

(** ** [POST /events]: create event *)

Definition createEvent (env : Env) (userId : string) (b : EventBody)
    (db : InMemoryDb) : InMemoryDb * Response :=
  if negb (truthy userId) then
    (db, mkResponse 401 (Error "User not authenticated properly"))
  else if negb (truthy_opt (b_title b)) || negb (truthy_opt (b_date b))
          || negb (truthy_opt (b_time b)) || negb (truthy_num (b_capacity b))
  then
    (db, mkResponse 400
           (ErrorRequired "Missing required fields"
              ["title"; "date"; "time"; "capacity"]))
  else
    let eventId := pretty (now env) in
    let event :=
      Event.mk eventId
        (default "" (b_title b))
        (js_or (b_description b) "")
        (default "" (b_date b))
        (default "" (b_time b))
        (parseInt env (default 0%Z (b_capacity b)))
        userId
        ∅
        (isoNow env)
        None in
    (set_events (insert eventId event) db,
     mkResponse 201
       (EventCreated "Event created successfully" eventId
          (Event.title event) (Event.description event) (Event.date event)
          (Event.time event) (Event.capacity event) (Event.createdAt event))).

(** ** [PUT /events/:id]: update event *)

(** The new capacity is refused when it is truthy and below the number of
    participants: [capacity && capacity < event.participants.size]. *)
Definition capacity_refused (b : EventBody) (event : Event.t) : bool :=
  match b_capacity b with
  | Some c => negb (c =? 0)%Z && (c <? Event.size event)%Z
  | None => false
  end.

(** [{...event, title: title || event.title, ...}]: the copy shares the
    participant set of [event]. *)
Definition updatedEvent (env : Env) (b : EventBody) (event : Event.t) : Event.t :=
  Event.mk (Event.id event)
    (js_or (b_title b) (Event.title event))
    (js_or (b_description b) (Event.description event))
    (js_or (b_date b) (Event.date event))
    (js_or (b_time b) (Event.time event))
    (js_or_num (b_capacity b) (Event.capacity event))
    (Event.createdBy event)
    (Event.participants event)
    (Event.createdAt event)
    (Some (isoNow env)).

(** The names of the fields whose value in the body is defined and differs
    from the stored one. *)
Definition changedFields (b : EventBody) (event : Event.t) : list string :=
  let changed (o : option string) (s : string) := bool_decide (is_Some o) && differs o s in
  (if changed (b_title b) (Event.title event) then ["title"] else [])
  ++ (if changed (b_description b) (Event.description event) then ["description"] else [])
  ++ (if changed (b_date b) (Event.date event) then ["date"] else [])
  ++ (if changed (b_time b) (Event.time event) then ["time"] else [])
  ++ (if bool_decide (is_Some (b_capacity b)) && differs_num (b_capacity b) (Event.capacity event)
      then ["capacity"] else []).

(** One callback of the notification fan-out of the update: the mail is sent
    when the participant resolves to a user, and a failure to send is caught
    on the spot (and logged). *)
Definition notifyUpdated (env : Env) (db : InMemoryDb) (participantId : string)
    : Exc unit :=
  match find_user participantId db with
  | Some participant =>
      try_catch (sendEmail env (User.email participant)) (λ _, Return tt)
  | None => Return tt
  end.

(** The notification block of the update, with its own [try]/[catch]. *)
Definition notifyParticipants (env : Env) (db : InMemoryDb) (b : EventBody)
    (event : Event.t) : Exc unit :=
  try_catch
    (if differs (b_date b) (Event.date event) || differs (b_time b) (Event.time event)
     then _ ←! mapM (notifyUpdated env db) (elements (Event.participants event));
          Return tt
     else Return tt)
    (λ _, Return tt).

Definition updateEvent (env : Env) (userId eventId : string) (b : EventBody)
    (db : InMemoryDb) : InMemoryDb * Response :=
  match events db !! eventId with
  | None => (db, mkResponse 404 (Error "Event not found"))
  | Some event =>
      if negb (String.eqb (Event.createdBy event) userId) then
        (db, mkResponse 403
               (Error "Unauthorized: Only the event creator can update this event"))
      else if capacity_refused b event then
        (db, mkResponse 400
               (ErrorCapacity
                  "New capacity cannot be less than current number of participants"
                  (Event.size event)))
      else
        let updated := updatedEvent env b event in
        match notifyParticipants env db b event with
        | Throw m => (db, mkResponse 500 (ErrorDetails "Error updating event" m))
        | Return _ =>
            (set_events (insert eventId updated) db,
             mkResponse 200
               (EventUpdated "Event updated successfully"
                  (Event.id updated) (Event.title updated)
                  (Event.description updated) (Event.date updated)
                  (Event.time updated) (Event.capacity updated)
                  (Event.size updated) (Event.updatedAt updated)
                  (changedFields b event)))
        end
  end.

(** ** [DELETE /events/:id]: delete event *)

(** One callback of the preparation of the cancellation notices: a
    participant that resolves to no user yields [undefined]. *)
Definition cancellationNotice (db : InMemoryDb) (participantId : string)
    : Exc (option Notification) :=
  match find_user participantId db with
  | Some participant =>
      Return (Some (mkNotification (User.email participant) "Event Cancellation Notice"))
  | None => Return None
  end.

(** [userEventSet.delete(eventId)] for one participant, when the user has a
    set of registered events. *)
Definition unregister (eventId participantId : string)
    (ue : gmap string (gset string)) : gmap string (gset string) :=
  match ue !! participantId with
  | Some userEventSet => <[participantId := userEventSet ∖ {[eventId]}]> ue
  | None => ue
  end.

(** The cleanup over all participants, in the order of the array. *)
Definition unregisterAll (eventId : string) (participantIds : list string)
    (ue : gmap string (gset string)) : gmap string (gset string) :=
  foldl (λ acc participantId, unregister eventId participantId acc) ue participantIds.

Definition deleteEvent (env : Env) (userId eventId : string)
    (db : InMemoryDb) : InMemoryDb * Response :=
  match events db !! eventId with
  | None => (db, mkResponse 404 (Error "Event not found"))
  | Some event =>
      if negb (String.eqb (Event.createdBy event) userId) then
        (db, mkResponse 403
               (Error "Unauthorized: Only the event creator can delete this event"))
      else
        let participants := elements (Event.participants event) in
        (* [.filter(Boolean)] is applied to the array of promises, all of
           them truthy, so the awaited array keeps its [undefined] entries *)
        match mapM (cancellationNotice db) participants with
        | Throw _ => (db, mkResponse 500 (Error "Error deleting event"))
        | Return notifications =>
            (* the array passed to [Promise.all] is built first: every
               [userEventSet.delete] has run when [sendBulkEmails] is called *)
            let db1 := set_userEvents (unregisterAll eventId participants) db in
            match (if (0 <? length notifications)%nat
                   then sendBulkEmails env notifications else Return tt) with
            | Throw _ => (db1, mkResponse 500 (Error "Error deleting event"))
            | Return _ =>
                (set_events (delete eventId) db1,
                 mkResponse 200
                   (EventDeleted "Event deleted successfully" eventId
                      (Event.title event) (length participants)))
            end
        end
  end.

(** ** [POST /events/:id/register]: register for event *)

(** What a suspended registration holds while it awaits [sendEmail]: the
    address the confirmation goes to. *)
Record Suspended : Type := mkSuspended {
  s_eventId : string;
  s_event : Event.t;
  s_to : string
}.

(** The response sent once the registration is done, computed from the event
    object the handler holds. *)
Definition registeredResponse (eventId : string) (event : Event.t) : Response :=
  mkResponse 200
    (Registered "Successfully registered for event" eventId
       (Event.title event) (Event.date event) (Event.time event)
       (Event.capacity event - Event.size event)%Z).

(** The synchronous part of the handler, up to [await sendEmail]: both
    checks and both insertions.  It ends either with a response or suspended
    on the confirmation mail. *)
Definition register_begin (userId eventId : string) (db : InMemoryDb)
    : InMemoryDb * (Response + Suspended) :=
  match events db !! eventId with
  | None => (db, inl (mkResponse 404 (Error "Event not found")))
  | Some event =>
      if (Event.capacity event <=? Event.size event)%Z then
        (db, inl (mkResponse 400 (Error "Event is full")))
      else if bool_decide (userId ∈ Event.participants event) then
        (db, inl (mkResponse 400 (Error "Already registered for this event")))
      else
        let event' := Event.add_participant userId event in
        let db1 := set_events (insert eventId event') db in
        let db2 :=
          if bool_decide (is_Some (userEvents db1 !! userId)) then db1
          else set_userEvents (insert userId ∅) db1 in
        let db3 :=
          set_userEvents
            (λ ue, <[userId := {[eventId]} ∪ default ∅ (ue !! userId)]> ue) db2 in
        match find_user userId db3 with
        | Some user => (db3, inr (mkSuspended eventId event' (User.email user)))
        | None => (db3, inl (registeredResponse eventId event'))
        end
  end.

(** The event object [e] seen when its participant set holds [ps]. *)
Definition with_participants (ps : gset string) (e : Event.t) : Event.t :=
  Event.mk (Event.id e) (Event.title e) (Event.description e) (Event.date e)
    (Event.time e) (Event.capacity e) (Event.createdBy e) ps
    (Event.createdAt e) (Event.updatedAt e).

(** The rest of the handler, run when [sendEmail] has settled.  The handler
    answers from the event object it fetched at its start: title, date, time
    and capacity are the fields of that object, whatever has been stored
    under [eventId] since.  Its participant set is shared with the event
    stored under [eventId], to which the registrations handled meanwhile
    have added; so the set is read from the store (and it is the set as it
    was at suspension when the store no longer has the event). *)
Definition register_end (env : Env) (s : Suspended) (db : InMemoryDb) : Response :=
  match sendEmail env (s_to s) with
  | Throw m => mkResponse 500 (ErrorDetails "Error registering for event" m)
  | Return _ =>
      let live :=
        match events db !! s_eventId s with
        | Some stored => Event.participants stored
        | None => Event.participants (s_event s)
        end in
      registeredResponse (s_eventId s) (with_participants live (s_event s))
  end.

(** A registration that runs without any other request in between. *)
Definition register (env : Env) (userId eventId : string) (db : InMemoryDb)
    : InMemoryDb * Response :=
  match register_begin userId eventId db with
  | (db', inl response) => (db', response)
  | (db', inr s) => (db', register_end env s db')
  end.

(** ** [POST /auth/register]: register user *)

Definition registerUser (env : Env) (b : UserBody) (db : InMemoryDb)
    : InMemoryDb * Response :=
  if users_has (b_email b) db then
    (db, mkResponse 400 (Error "Email already registered"))
  else
    let role := default "attendee" (b_role b) in
    let user :=
      User.mk (b_email b) (hash env (b_password b)) (b_name b) role
        (pretty (now env))
        (Profile.mk (b_name b) "" [] (isoNow env) 0 0) in
    let db1 := mkDb (users db ++ [user]) (events db)
                 (<[User.id user := ∅]> (userEvents db)) in
    match sendEmail env (b_email b) with
    | Throw _ => (db1, mkResponse 500 (Error "Error registering user"))
    | Return _ => (db1, mkResponse 201 (UserRegistered "User registered successfully" role))
    end.

(** ** Requests and runs *)

Inductive Request : Type :=
| CreateEvent (userId : string) (b : EventBody)
| UpdateEvent (userId eventId : string) (b : EventBody)
| DeleteEvent (userId eventId : string)
| Register (userId eventId : string)
| RegisterUser (b : UserBody).

Definition handle (env : Env) (r : Request) (db : InMemoryDb)
    : InMemoryDb * Response :=
  match r with
  | CreateEvent userId b => createEvent env userId b db
  | UpdateEvent userId eventId b => updateEvent env userId eventId b db
  | DeleteEvent userId eventId => deleteEvent env userId eventId db
  | Register userId eventId => register env userId eventId db
  | RegisterUser b => registerUser env b db
  end.

(** The store after a sequence of requests, each handled to completion in
    its own environment. *)
Definition run (rs : list (Env * Request)) (db : InMemoryDb) : InMemoryDb :=
  foldl (λ d er, (handle er.1 er.2 d).1) db rs.

(** ** Requests handled while another one waits

    Node runs a handler without interruption until it awaits; while a
    handler waits for its mails, the server handles the requests that come
    in.  The update and the deletion are split here at the [await] on their
    mails: the first part is the handler up to that [await], the second part
    is what it does when the mails have settled.  (The deletion awaits once
    before, on the notices it prepares; they are ready without input or
    output, and no request is placed there.)  [updateEvent] and
    [deleteEvent] are the two parts run one after the other with no request
    in between. *)

(** What an update holds while it awaits the notification mails: the copy
    [updatedEvent], which is not stored yet, and the changed fields. *)
Record UpdateSuspended : Type := mkUpdateSuspended {
  us_eventId : string;
  us_updated : Event.t;
  us_changedFields : list string
}.

Definition updatedResponse (updated : Event.t) (changed : list string) : Response :=
  mkResponse 200
    (EventUpdated "Event updated successfully"
       (Event.id updated) (Event.title updated)
       (Event.description updated) (Event.date updated)
       (Event.time updated) (Event.capacity updated)
       (Event.size updated) (Event.updatedAt updated) changed).

(** The update up to [await Promise.all(...)]: the three checks, the copy,
    and the start of the mails.  When neither date nor time differs there is
    no [await], and the handler stores the copy and answers at once. *)
Definition update_begin (env : Env) (userId eventId : string) (b : EventBody)
    (db : InMemoryDb) : InMemoryDb * (Response + UpdateSuspended) :=
  match events db !! eventId with
  | None => (db, inl (mkResponse 404 (Error "Event not found")))
  | Some event =>
      if negb (String.eqb (Event.createdBy event) userId) then
        (db, inl (mkResponse 403
                    (Error "Unauthorized: Only the event creator can update this event")))
      else if capacity_refused b event then
        (db, inl (mkResponse 400
                    (ErrorCapacity
                       "New capacity cannot be less than current number of participants"
                       (Event.size event))))
      else
        let updated := updatedEvent env b event in
        if differs (b_date b) (Event.date event) || differs (b_time b) (Event.time event)
        then (db, inr (mkUpdateSuspended eventId updated (changedFields b event)))
        else (set_events (insert eventId updated) db,
              inl (updatedResponse updated (changedFields b event)))
  end.

(** The update once the mails have settled (a mail that failed was caught):
    [db.events.set(eventId, updatedEvent)] and the answer.  The copy was
    made before the [await], so its fields are those computed then; its
    participant set is the one it shares with the event stored under
    [eventId], to which the registrations handled meanwhile have added (and
    it is the set as it was at suspension when the store no longer has the
    event). *)
Definition update_end (s : UpdateSuspended) (db : InMemoryDb)
    : InMemoryDb * Response :=
  let live :=
    match events db !! us_eventId s with
    | Some stored => Event.participants stored
    | None => Event.participants (us_updated s)
    end in
  let updated := with_participants live (us_updated s) in
  (set_events (insert (us_eventId s) updated) db,
   updatedResponse updated (us_changedFields s)).

(** What a deletion holds while it awaits [sendBulkEmails]: what its answer
    reports, and whether [sendBulkEmails] rejects. *)
Record DeleteSuspended : Type := mkDeleteSuspended {
  ds_eventId : string;
  ds_title : string;
  ds_participants : nat;
  ds_mails : Exc unit
}.

(** The deletion up to [await Promise.all([...cleanup, sendBulkEmails])]:
    the two checks, the notices, the cleanup of the sets of the
    participants, and the start of the mails. *)
Definition delete_begin (env : Env) (userId eventId : string) (db : InMemoryDb)
    : InMemoryDb * (Response + DeleteSuspended) :=
  match events db !! eventId with
  | None => (db, inl (mkResponse 404 (Error "Event not found")))
  | Some event =>
      if negb (String.eqb (Event.createdBy event) userId) then
        (db, inl (mkResponse 403
                    (Error "Unauthorized: Only the event creator can delete this event")))
      else
        let participants := elements (Event.participants event) in
        match mapM (cancellationNotice db) participants with
        | Throw _ => (db, inl (mkResponse 500 (Error "Error deleting event")))
        | Return notifications =>
            (set_userEvents (unregisterAll eventId participants) db,
             inr (mkDeleteSuspended eventId (Event.title event) (length participants)
                    (if (0 <? length notifications)%nat
                     then sendBulkEmails env notifications else Return tt)))
        end
  end.

(** The deletion once the mails have settled: [db.events.delete(eventId)]
    and the answer, or the error answer when [sendBulkEmails] rejected. *)
Definition delete_end (s : DeleteSuspended) (db : InMemoryDb)
    : InMemoryDb * Response :=
  match ds_mails s with
  | Throw _ => (db, mkResponse 500 (Error "Error deleting event"))
  | Return _ =>
      (set_events (delete (ds_eventId s)) db,
       mkResponse 200
         (EventDeleted "Event deleted successfully" (ds_eventId s)
            (ds_title s) (ds_participants s)))
  end.

(** ** Capacities that are no integers

    [express.json()] hands any JSON number to the handlers.  [POST /events]
    stores [parseInt(capacity)], an integer; [PUT /events/:id] stores the
    number of the body as it is.  The two checks that compare a capacity
    with the number of participants are, for a rational capacity: *)

(** [capacity && capacity < event.participants.size] *)
Definition capacity_refused_at (c : QArith_base.Q) (size : Z) : bool :=
  negb (QArith_base.Qeq_bool c (QArith_base.inject_Z 0))
  && negb (QArith_base.Qle_bool (QArith_base.inject_Z size) c).

(** [event.participants.size >= event.capacity] *)
Definition event_full_at (capacity : QArith_base.Q) (size : Z) : bool :=
  QArith_base.Qle_bool capacity (QArith_base.inject_Z size).

(** * Predicates on the store *)

(** An event respects its capacity when it has no more participants than
    places; an event that was created with a negative capacity has none. *)
Definition within_capacity (ev : Event.t) : Prop :=
  (Event.size ev ≤ Z.max 0 (Event.capacity ev))%Z.

Definition capacity_respected (db : InMemoryDb) : Prop :=
  ∀ eventId ev, events db !! eventId = Some ev → within_capacity ev.

(** The two directions of the registration index agree: a user is a
    participant of a stored event exactly when the event is in the user's
    set of registered events. *)
Definition consistent (db : InMemoryDb) : Prop :=
  ∀ u e,
    (∃ ev, events db !! e = Some ev ∧ u ∈ Event.participants ev)
    ↔ (∃ s, userEvents db !! u = Some s ∧ e ∈ s).

(** The requests under which the index is kept: an id that the request makes
    from the clock is not in use yet, and a deletion does not end in the
    error response.  A creation makes an id when it is answered 201, the
    registration of a user when the email is not registered yet. *)
Definition admissible (env : Env) (r : Request) (db : InMemoryDb) : Prop :=
  match r with
  | CreateEvent userId b =>
      status (createEvent env userId b db).2 = 201 →
      events db !! pretty (now env) = None
  | RegisterUser b =>
      users_has (b_email b) db = false →
      userEvents db !! pretty (now env) = None
  | DeleteEvent userId eventId =>
      status (deleteEvent env userId eventId db).2 ≠ 500
  | UpdateEvent _ _ _ | Register _ _ => True
  end.

Fixpoint admissible_run (rs : list (Env * Request)) (db : InMemoryDb) : Prop :=
  match rs with
  | [] => True
  | er :: rs' => admissible er.1 er.2 db ∧ admissible_run rs' (handle er.1 er.2 db).1
  end.

(** * Reading responses and ids *)

(** The id that a response to [POST /events] reports. *)
Definition createdId (r : Response) : option string :=
  match body r with
  | EventCreated _ id _ _ _ _ _ _ => Some id
  | _ => None
  end.

(** The number of places that a response to a registration reports. *)
Definition spotsRemaining (r : Response) : option Z :=
  match body r with
  | Registered _ _ _ _ _ spots => Some spots
  | _ => None
  end.

(** The number a decimal id stands for, as [Number(id)] reads it. *)
Definition digit (c : ascii) : N := (N_of_ascii c - 48)%N.

Fixpoint readDigits (s : string) (acc : N) : N :=
  match s with
  | EmptyString => acc
  | String c s' => readDigits s' (10 * acc + digit c)%N
  end.

Definition readId (id : string) : N := readDigits id 0.

(** * Registrations in flight

    Node runs a handler without interruption until it awaits; the only
    [await] of the registration handler is the one on [sendEmail].  A
    registration in flight is therefore in one of three states, and requests
    interleave by whole segments: [register_begin], then [register_end]. *)

Inductive Task : Type :=
| Ready (userId : string)
| Awaiting (userId : string) (s : Suspended)
| Done (userId : string) (response : Response).

Definition task_user (t : Task) : string :=
  match t with Ready u | Awaiting u _ | Done u _ => u end.

(** Running the next segment of one registration for [eventId]. *)
Definition step_task (env : Env) (eventId : string) (t : Task) (db : InMemoryDb)
    : InMemoryDb * Task :=
  match t with
  | Ready userId =>
      match register_begin userId eventId db with
      | (db', inl response) => (db', Done userId response)
      | (db', inr s) => (db', Awaiting userId s)
      end
  | Awaiting userId s => (db, Done userId (register_end env s db))
  | Done _ _ => (db, t)
  end.

Record System : Type := mkSystem {
  store : InMemoryDb;
  tasks : list Task
}.

(** The event loop picks the registration at position [i]. *)
Definition step (eventId : string) (ei : Env * nat) (sys : System) : System :=
  match tasks sys !! ei.2 with
  | Some t =>
      let '(db', t') := step_task ei.1 eventId t (store sys) in
      mkSystem db' (<[ei.2 := t']> (tasks sys))
  | None => sys
  end.

(** An interleaving is the sequence of picks, each with what the outside
    world is at that moment. *)
Definition interleave (eventId : string) (sched : list (Env * nat)) (sys : System)
    : System :=
  foldl (λ s ei, step eventId ei s) sys sched.

(** One registration per user, all received before any is handled. *)
Definition launch (db : InMemoryDb) (userIds : list string) : System :=
  mkSystem db (Ready <$> userIds).

Definition eventFull (r : Response) : bool :=
  match body r with
  | Error msg => (status r =? 400)%nat && String.eqb msg "Event is full"
  | _ => false
  end.

(** The registration has put its user among the participants. *)
Definition registered (t : Task) : bool :=
  match t with
  | Ready _ => false
  | Awaiting _ _ => true
  | Done _ r => (status r =? 200)%nat || (status r =? 500)%nat
  end.

(** The registration has been answered [Event is full]. *)
Definition refused (t : Task) : bool :=
  match t with Done _ r => eventFull r | _ => false end.

Definition answered (t : Task) : bool :=
  match t with Done _ _ => true | _ => false end.

Definition answered_200 (t : Task) : bool :=
  match t with Done _ r => (status r =? 200)%nat | _ => false end.

Definition answered_500 (t : Task) : bool :=
  match t with Done _ r => (status r =? 500)%nat | _ => false end.

(** How many of its segments a registration has run. *)
Definition rank (t : Task) : nat :=
  match t with Ready _ => 0 | Awaiting _ _ => 1 | Done _ _ => 2 end.

(** How often the interleaving picks the registration at position [i]. *)
Definition picks (i : nat) (sched : list (Env * nat)) : nat :=
  length (filter (λ ei : Env * nat, ei.2 = i) sched).

(** The interleaving runs every one of [n] registrations to its end: it
    picks each of them twice, once to start it and once when its mail has
    settled.  (Picking a registration that is answered already changes
    nothing, so that a registration answered at its first pick may be
    picked again.) *)
Definition complete (n : nat) (sched : list (Env * nat)) : bool :=
  forallb (λ i, 2 <=? picks i sched) (seq 0 n).

Definition count (p : Task → bool) (ts : list Task) : nat :=
  sum_list_with (λ t, if p t then 1 else 0) ts.

(** What is known of one registration in flight, [ev] being the event as
    stored and [sched] the picks made so far. *)
Definition task_ok (db : InMemoryDb) (sched : list (Env * nat)) (ev : Event.t)
    (t : Task) : Prop :=
  match t with
  | Ready u => u ∉ Event.participants ev
  | Awaiting u s =>
      ∃ user, find_user u db = Some user ∧ s_to s = User.email user
  | Done u r =>
      eventFull r = true
      ∨ (status r = 200
         ∧ (find_user u db = None
            ∨ ∃ ei user, ei ∈ sched ∧ find_user u db = Some user
                         ∧ mail ei.1 (User.email user) = true))
      ∨ (status r = 500
         ∧ ∃ ei user, ei ∈ sched ∧ find_user u db = Some user
                      ∧ mail ei.1 (User.email user) = false)
  end.

(** The invariant of the interleavings of the registrations of [userIds]
    for [eventId], launched on the store [db] that holds [event]. *)
Definition in_flight (db : InMemoryDb) (eventId : string) (event : Event.t)
    (userIds : list string) (sched : list (Env * nat)) (sys : System) : Prop :=
  ∃ ev,
    events (store sys) !! eventId = Some ev
    ∧ Event.capacity ev = Event.capacity event
    ∧ users (store sys) = users db
    ∧ task_user <$> tasks sys = userIds
    ∧ Event.size ev = Z.of_nat (count registered (tasks sys))
    ∧ (Event.size ev ≤ Event.capacity event)%Z
    ∧ (0 < count refused (tasks sys) → (Event.capacity event ≤ Event.size ev)%Z)
    ∧ (∀ i t, tasks sys !! i = Some t → task_ok db sched ev t).

(** * Sample data *)

(** The samples hold no capacity that is printed in exponent form; what
    [parseInt] would read of one is set to its sign. *)
Definition sampleEnv : Env :=
  mkEnv 1700000000000 "2023-11-14T22:13:20.000Z" (λ _, true) (λ password, password)
    Z.sgn.

(** The same instant, with a mail transport that rejects every message. *)
Definition noMailEnv : Env :=
  mkEnv 1700000000000 "2023-11-14T22:13:20.000Z" (λ _, false) (λ password, password)
    Z.sgn.

Definition sampleBody (capacity : Z) : EventBody :=
  mkEventBody (Some "Talk") None (Some "2024-01-01") (Some "10:00") (Some capacity).

Definition sampleId : string := "1700000000000".

(** The event that [sampleBody] creates for [owner] at [sampleEnv]. *)
Definition sampleEvent (capacity : Z) (participants : gset string) : Event.t :=
  Event.mk sampleId "Talk" "" "2024-01-01" "10:00" capacity "owner"
    participants "2023-11-14T22:13:20.000Z" None.

(** A user with an account, created at an earlier instant. *)
Definition aliceEnv : Env :=
  mkEnv 1690000000000 "2023-07-22T04:26:40.000Z" (λ _, true) (λ password, password)
    Z.sgn.

Definition aliceBody : UserBody := mkUserBody "alice@example.org" "secret" "Alice" None.

Definition aliceId : string := "1690000000000".

(** A second user with an account. *)
Definition bobEnv : Env :=
  mkEnv 1695000000000 "2023-09-18T01:20:00.000Z" (λ _, true) (λ password, password)
    Z.sgn.

Definition bobBody : UserBody := mkUserBody "bob@example.org" "hidden" "Bob" None.

Definition bobId : string := "1695000000000".

(** A store in which [alice] and [bob] have an account and [alice] is the
    one participant of the sample event, which has five places. *)
Definition aliceDb : InMemoryDb :=
  run [(aliceEnv, RegisterUser aliceBody);
       (bobEnv, RegisterUser bobBody);
       (sampleEnv, CreateEvent "owner" (sampleBody 5));
       (sampleEnv, Register aliceId sampleId)] emptyDb.

(** A store in which [alice] and a caller without an account, [ghost], are
    registered for the sample event. *)
Definition ghostDb : InMemoryDb :=
  run [(aliceEnv, RegisterUser aliceBody);
       (sampleEnv, CreateEvent "owner" (sampleBody 3));
       (sampleEnv, Register aliceId sampleId);
       (sampleEnv, Register "ghost" sampleId)] emptyDb.

(** * The routes and helpers beside the event life cycle *)

(** What a route that only reads the store sends back. *)
Inductive Reply (A : Type) : Type :=
| Json (code : nat) (payload : A)
| Failed (code : nat) (error : string).
Arguments Json {A} code payload.
Arguments Failed {A} code error.

(** ** [GET /user/events]: the events the caller is registered for *)

Record EventSummary : Type := mkSummary {
  sm_id : string;
  sm_title : string;
  sm_description : string;
  sm_date : string;
  sm_time : string
}.

Definition summary (event : Event.t) : EventSummary :=
  mkSummary (Event.id event) (Event.title event) (Event.description event)
    (Event.date event) (Event.time event).

(** [Array.from(userEventIds)] throws when the caller has no set, and the
    callback throws on [event.id] when an id of the set is not in
    [db.events]; the handler answers both with 500. *)
Definition getUserEvents (userId : string) (db : InMemoryDb)
    : Reply (list EventSummary) :=
  match
    (userEventIds ←! match userEvents db !! userId with
                     | Some s => Return (elements s)
                     | None => Throw "undefined is not iterable"
                     end;
     mapM (λ eventId,
             match events db !! eventId with
             | Some event => Return (summary event)
             | None => Throw "Cannot read properties of undefined (reading 'id')"
             end) userEventIds)
  with
  | Return registeredEvents => Json 200 registeredEvents
  | Throw _ => Failed 500 "Error fetching user events"
  end.

(** ** [GET /user/profile] *)

Record ProfileView : Type := mkProfileView {
  pv_name : string;
  pv_bio : string;
  pv_interests : list string;
  pv_role : string;
  pv_eventsOrganized : Z;
  pv_eventsAttended : Z;
  pv_createdAt : string
}.

Definition getProfile (userId : string) (db : InMemoryDb) : Reply ProfileView :=
  match find_user userId db with
  | None => Failed 404 "User not found"
  | Some user =>
      Json 200
        (mkProfileView (Profile.name (User.profile user))
           (Profile.bio (User.profile user))
           (Profile.interests (User.profile user))
           (User.role user)
           (Profile.eventsOrganized (User.profile user))
           (Profile.eventsAttended (User.profile user))
           (Profile.createdAt (User.profile user)))
  end.

(** ** [POST /auth/login] and the [authenticateToken] middleware *)

(** What [jwt.sign] is given and [jwt.verify] gives back. *)
Record Payload : Type := mkPayload {
  p_id : string;
  p_email : string
}.

(** The functions of bcrypt and jsonwebtoken that the two handlers call. *)
Record Crypto : Type := mkCrypto {
  compare : string → string → bool;   (* bcrypt.compare(password, hashed) *)
  sign : Payload → string;            (* jwt.sign(payload, JWT_SECRET, ...) *)
  verify : string → option Payload    (* jwt.verify(token, JWT_SECRET): the payload, or an error *)
}.

(** [db.users.get(email)] *)
Definition users_get (email : string) (db : InMemoryDb) : option User.t :=
  find (λ u, String.eqb (User.email u) email) (users db).

Definition login (crypto : Crypto) (email password : string) (db : InMemoryDb)
    : Reply string :=
  match users_get email db with
  | None => Failed 401 "Invalid credentials"
  | Some user =>
      if negb (compare crypto password (User.password user)) then
        Failed 401 "Invalid credentials"
      else
        Json 200 (sign crypto (mkPayload (User.id user) (User.email user)))
  end.

(** [s.split(sep)] for a separator of one character. *)
Fixpoint split (sep : ascii) (s : string) : list string :=
  match s with
  | EmptyString => [EmptyString]
  | String c s' =>
      if Ascii.eqb c sep then EmptyString :: split sep s'
      else match split sep s' with
           | piece :: pieces => String c piece :: pieces
           | [] => [String c EmptyString]
           end
  end.

(** [authHeader && authHeader.split(' ')[1]], as far as its truthiness and
    its value when truthy go. *)
Definition bearerToken (authorization : option string) : option string :=
  match authorization with
  | Some authHeader =>
      if truthy authHeader then split " " authHeader !! 1 else None
  | None => None
  end.

(** The middleware either answers itself or calls [next()] with [req.user]
    set to the payload of the token. *)
Definition authenticateToken (crypto : Crypto) (authorization : option string)
    : Reply Payload :=
  match bearerToken authorization with
  | Some token =>
      if truthy token then
        match verify crypto token with
        | Some user => Json 200 user
        | None => Failed 403 "Invalid or expired token"
        end
      else Failed 401 "Authentication required"
  | None => Failed 401 "Authentication required"
  end.

(** ** [GET /events]: the list of events *)

Record EventListing : Type := mkListing {
  l_id : string;
  l_title : string;
  l_description : string;
  l_date : string;
  l_time : string;
  l_capacity : Z;
  l_participantCount : Z;
  l_spotsRemaining : Z;
  l_isUserRegistered : bool;
  l_creatorId : option string;
  l_creatorName : option string;
  l_isFull : bool;
  l_registrationStatus : string
}.

(** The callback of [Array.from(db.events.values()).map]. *)
Definition eventListing (viewer : string) (db : InMemoryDb) (event : Event.t)
    : EventListing :=
  let creator := find_user (Event.createdBy event) db in
  let isUserRegistered := bool_decide (viewer ∈ Event.participants event) in
  let spotsRemaining := (Event.capacity event - Event.size event)%Z in
  let full := (Event.capacity event <=? Event.size event)%Z in
  mkListing (Event.id event) (Event.title event) (Event.description event)
    (Event.date event) (Event.time event) (Event.capacity event)
    (Event.size event) spotsRemaining isUserRegistered
    (User.id <$> creator) (User.name <$> creator)
    full
    (if isUserRegistered then "registered" else if full then "full" else "open").

(** The functions of the language that the listing calls on its strings:
    [new Date(s).getTime()], with [None] for an invalid date, and
    [s.toLowerCase()]. *)
Record Locale : Type := mkLocale {
  dateValue : string → option Z;
  toLowerCase : string → string
}.

(** [(a, b) => new Date(a.date) - new Date(b.date)]; a [NaN] result counts
    as [+0] for [sort]. *)
Definition compareDates (loc : Locale) (a b : EventListing) : Z :=
  match dateValue loc (l_date a), dateValue loc (l_date b) with
  | Some x, Some y => (x - y)%Z
  | _, _ => 0%Z
  end.

(** [Array.prototype.sort] with a comparator, as a stable insertion sort:
    an element goes before the first element that it does not follow.  Every
    stable sort gives this result when the comparator is consistent, which
    [compareDates] is when every date is valid. *)
Fixpoint sortInsert {A} (cmp : A → A → Z) (x : A) (l : list A) : list A :=
  match l with
  | [] => [x]
  | y :: l' => if (cmp x y <=? 0)%Z then x :: y :: l' else y :: sortInsert cmp x l'
  end.

Definition sort {A} (cmp : A → A → Z) (l : list A) : list A :=
  foldr (sortInsert cmp) [] l.

(** [s.includes(sub)] *)
Fixpoint includes (s sub : string) : bool :=
  String.prefix sub s
  || match s with
     | EmptyString => false
     | String _ s' => includes s' sub
     end.

Record EventList : Type := mkEventList {
  total : nat;
  listed : list EventListing;
  filter_date : option string;
  filter_query : option string
}.

(** The test of the first [filter]: [event.date === date]. *)
Definition onDate (date : string) (e : EventListing) : bool :=
  String.eqb (l_date e) date.

(** The test of the second [filter]. *)
Definition matchesQuery (loc : Locale) (query : string) (e : EventListing) : bool :=
  let searchQuery := toLowerCase loc query in
  includes (toLowerCase loc (l_title e)) searchQuery
  || includes (toLowerCase loc (l_description e)) searchQuery.

(** The handler; [eventList] is [Array.from(db.events.values())], the events
    of the store in the order in which their ids were first inserted. *)
Definition listEvents (loc : Locale) (viewer : string) (date query : option string)
    (db : InMemoryDb) (eventList : list Event.t) : EventList :=
  let sorted := sort (compareDates loc) (eventListing viewer db <$> eventList) in
  let byDate :=
    match date with
    | Some d => if truthy d then List.filter (onDate d) sorted else sorted
    | None => sorted
    end in
  let byQuery :=
    match query with
    | Some q => if truthy q then List.filter (matchesQuery loc q) byDate else byDate
    | None => byDate
    end in
  mkEventList (length byQuery) byQuery date query.

(** ** The in-memory log of [config/logger.js] *)

(** A log entry is [{timestamp, level, message, ...metadata}]; the metadata
    is kept as the caller gave it, [M] being its type and [userIdOf] its
    [userId] field.  Callers never put [timestamp], [level] or [message] in
    the metadata. *)
Record LogEntry (M : Type) : Type := mkLogEntry {
  timestamp : string;
  level : string;
  message : string;
  metadata : M
}.
Arguments mkLogEntry {M} timestamp level message metadata.
Arguments timestamp {M} _.
Arguments level {M} _.
Arguments message {M} _.
Arguments metadata {M} _.

(** [userLogs.slice(-n)] *)
Definition sliceLast {A} (n : nat) (l : list A) : list A :=
  drop (length l - n) l.

(** [addToMemoryLog]: the entry is pushed onto the user's array, which is
    created when missing and cut down to its last 1000 entries. *)
Definition addToMemoryLog {M} (userId : string) (log : LogEntry M)
    (inMemoryLogs : gmap string (list (LogEntry M)))
    : gmap string (list (LogEntry M)) :=
  let logs1 :=
    if bool_decide (is_Some (inMemoryLogs !! userId)) then inMemoryLogs
    else <[userId := []]> inMemoryLogs in
  let logs2 := <[userId := default [] (logs1 !! userId) ++ [log]]> logs1 in
  let userLogs := default [] (logs2 !! userId) in
  if (1000 <? length userLogs)%nat
  then <[userId := sliceLast 1000 userLogs]> logs2
  else logs2.

(** [logEvent]: builds the entry, hands it to winston (not modelled: it
    writes to the console and to files) and stores it when the metadata has
    a truthy [userId].  It returns the entry. *)
Definition logEvent {M} (userIdOf : M → option string) (env : Env)
    (lvl msg : string) (meta : M)
    (inMemoryLogs : gmap string (list (LogEntry M)))
    : gmap string (list (LogEntry M)) * LogEntry M :=
  let logEntry := mkLogEntry (isoNow env) lvl msg meta in
  match userIdOf meta with
  | Some userId =>
      if truthy userId then
        let logs1 :=
          if bool_decide (is_Some (inMemoryLogs !! userId)) then inMemoryLogs
          else <[userId := []]> inMemoryLogs in
        let logs2 := <[userId := default [] (logs1 !! userId) ++ [logEntry]]> logs1 in
        let userLogs := default [] (logs2 !! userId) in
        (if (1000 <? length userLogs)%nat
         then <[userId := sliceLast 1000 userLogs]> logs2
         else logs2, logEntry)
      else (inMemoryLogs, logEntry)
  | None => (inMemoryLogs, logEntry)
  end.

(** The store of logs after a sequence of calls of [logEvent]. *)
Definition logAll {M} (userIdOf : M → option string)
    (calls : list (Env * string * string * M))
    (inMemoryLogs : gmap string (list (LogEntry M)))
    : gmap string (list (LogEntry M)) :=
  foldl (λ logs c, (logEvent userIdOf c.1.1.1 c.1.1.2 c.1.2 c.2 logs).1)
    inMemoryLogs calls.

(** * Properties *)

(** ** Basic facts about the handlers *)

Lemma Event_size_add userId ev :
  userId ∉ Event.participants ev →
  Event.size (Event.add_participant userId ev) = (Event.size ev + 1)%Z.
Proof.
  intros Hnot. unfold Event.size, Event.add_participant; simpl.
  rewrite size_union by set_solver. rewrite size_singleton. lia.
Qed.

(** The fan-out of update notices never throws: every failure to send is
    caught inside its own callback. *)
Lemma mapM_notifyUpdated env db ps :
  ∃ us, mapM (notifyUpdated env db) ps = Return us.
Proof.
  induction ps as [|p ps [us IH]]; simpl; [by eexists|].
  unfold notifyUpdated at 1. rewrite IH.
  destruct (find_user p db); simpl; [|by eexists].
  unfold sendEmail. destruct (mail env _); simpl; by eexists.
Qed.

Lemma notifyParticipants_returns env db b event :
  notifyParticipants env db b event = Return tt.
Proof.
  unfold notifyParticipants.
  destruct (differs _ _ || differs _ _); [|done].
  destruct (mapM_notifyUpdated env db (elements (Event.participants event)))
    as [us ->]. done.
Qed.

(** Preparing the cancellation notices never throws; it yields one entry
    per participant, [None] for a participant that resolves to no user. *)
Lemma mapM_cancellationNotice db ps :
  mapM (cancellationNotice db) ps
  = Return (map (λ p, (λ u, mkNotification (User.email u)
                              "Event Cancellation Notice") <$> find_user p db) ps).
Proof.
  induction ps as [|p ps IH]; simpl; [done|].
  rewrite IH. unfold cancellationNotice. by destruct (find_user p db).
Qed.

(** [sendBulkEmails] resolves exactly when no recipient is [undefined],
    whatever the transport does. *)
Lemma sendBulkEmails_all_defined env ns :
  Forall is_Some ns → sendBulkEmails env ns = Return tt.
Proof.
  unfold sendBulkEmails. intros Hall.
  assert (∃ ps, mapM (λ r : option Notification,
                        match r with
                        | Some n => Return (sendEmail env (n_email n))
                        | None => Throw "Cannot destructure property 'email'"
                        end) ns = Return ps) as [ps ->]; [|done].
  induction Hall as [|r ns [n ->] _ [ps IH]]; simpl; [by eexists|].
  rewrite IH. simpl. by eexists.
Qed.

Lemma sendBulkEmails_undefined env ns :
  None ∈ ns → sendBulkEmails env ns = Throw "Failed to send some notifications".
Proof.
  unfold sendBulkEmails. intros Hin.
  assert (∃ m, mapM (λ r : option Notification,
                        match r with
                        | Some n => Return (sendEmail env (n_email n))
                        | None => Throw "Cannot destructure property 'email'"
                        end) ns = Throw m) as [m ->]; [|done].
  induction ns as [|r ns IH]; [by apply elem_of_nil in Hin|].
  simpl. destruct r as [n|]; simpl; [|by eexists].
  apply elem_of_cons in Hin as [Hin|Hin]; [done|].
  destruct (IH Hin) as [m ->]. by eexists.
Qed.

(** What the cleanup of a deletion leaves in a user's set. *)
Lemma unregister_lookup eventId p ue u :
  unregister eventId p ue !! u
  = if decide (u = p) then (λ s, s ∖ {[eventId]}) <$> ue !! u else ue !! u.
Proof.
  unfold unregister. destruct (decide (u = p)) as [->|Hne].
  - destruct (ue !! p) eqn:E; simpl; [by rewrite lookup_insert_eq | by rewrite E].
  - destruct (ue !! p); [by rewrite lookup_insert_ne | done].
Qed.

Lemma unregisterAll_lookup eventId ps ue u :
  unregisterAll eventId ps ue !! u
  = if decide (u ∈ ps) then (λ s, s ∖ {[eventId]}) <$> ue !! u else ue !! u.
Proof.
  unfold unregisterAll. revert ue.
  induction ps as [|p ps IH]; intros ue; simpl.
  - destruct (decide (u ∈ [])) as [Hin|_]; [by apply elem_of_nil in Hin | done].
  - rewrite IH, unregister_lookup.
    destruct (decide (u ∈ p :: ps)) as [Hin|Hnin];
      destruct (decide (u ∈ ps)) as [Hin'|Hnin'];
      destruct (decide (u = p)) as [->|Hne]; try done.
    + destruct (ue !! p) as [s|]; simpl; [|done]. f_equal. set_solver.
    + apply elem_of_cons in Hin as [?|?]; done.
    + exfalso. apply Hnin, elem_of_cons. by right.
    + exfalso. apply Hnin, elem_of_cons. by right.
    + exfalso. apply Hnin, elem_of_cons. by left.
Qed.

(** ** Capacity *)

Lemma capacity_respected_empty : capacity_respected emptyDb.
Proof. intros e ev. simpl. by rewrite lookup_empty. Qed.

Lemma capacity_respected_insert db eventId ev :
  capacity_respected db → within_capacity ev →
  capacity_respected (set_events (insert eventId ev) db).
Proof.
  intros Hdb Hev e ev'. simpl. rewrite lookup_insert.
  case_decide; [by intros [= <-] | apply Hdb].
Qed.

Lemma createEvent_capacity env userId b db :
  capacity_respected db → capacity_respected (createEvent env userId b db).1.
Proof.
  intros Hdb. unfold createEvent.
  destruct (negb (truthy userId)); [done|].
  destruct (_ || _); [done|]. simpl.
  apply capacity_respected_insert; [done|].
  unfold within_capacity, Event.size. cbn [Event.participants Event.capacity].
  rewrite size_empty. lia.
Qed.

Lemma updateEvent_capacity env userId eventId b db :
  capacity_respected db → capacity_respected (updateEvent env userId eventId b db).1.
Proof.
  intros Hdb. unfold updateEvent.
  destruct (events db !! eventId) as [event|] eqn:Hev; [|done].
  destruct (negb _); [done|].
  destruct (capacity_refused b event) eqn:Href; [done|].
  rewrite notifyParticipants_returns. simpl.
  apply capacity_respected_insert; [done|].
  specialize (Hdb _ _ Hev). revert Hdb Href.
  unfold within_capacity, capacity_refused, updatedEvent, Event.size, js_or_num.
  simpl. destruct (b_capacity b) as [c|]; [|done].
  destruct (Z.eqb_spec c 0); simpl; [done|].
  destruct (Z.ltb_spec c (Z.of_nat (size (Event.participants event)))); [done|].
  lia.
Qed.

Lemma deleteEvent_capacity env userId eventId db :
  capacity_respected db → capacity_respected (deleteEvent env userId eventId db).1.
Proof.
  intros Hdb. unfold deleteEvent.
  destruct (events db !! eventId) as [event|] eqn:Hev; [|done].
  destruct (negb _); [done|].
  rewrite mapM_cancellationNotice.
  destruct (if (0 <? _)%nat then _ else _); simpl; [|done].
  intros e ev. simpl. rewrite lookup_delete.
  case_decide; [done | apply Hdb].
Qed.

Lemma register_begin_capacity userId eventId db :
  capacity_respected db → capacity_respected (register_begin userId eventId db).1.
Proof.
  intros Hdb. unfold register_begin.
  destruct (events db !! eventId) as [event|] eqn:Hev; [|done].
  destruct (Z.leb_spec (Event.capacity event) (Event.size event)); [done|].
  case_bool_decide as Hin; [done|].
  assert (capacity_respected
            (set_events (insert eventId (Event.add_participant userId event)) db))
    as Hdb1.
  { apply capacity_respected_insert; [done|].
    unfold within_capacity. rewrite Event_size_add by done.
    change (Event.capacity (Event.add_participant userId event))
      with (Event.capacity event). lia. }
  destruct (find_user _ _); simpl; case_bool_decide; exact Hdb1.
Qed.

Lemma register_store env userId eventId db :
  (register env userId eventId db).1 = (register_begin userId eventId db).1.
Proof.
  unfold register. by destruct (register_begin userId eventId db) as [db' [r|s]].
Qed.

Lemma handle_capacity env r db :
  capacity_respected db → capacity_respected (handle env r db).1.
Proof.
  intros Hdb. destruct r as [u b|u e b|u e|u e|b]; simpl.
  - by apply createEvent_capacity.
  - by apply updateEvent_capacity.
  - by apply deleteEvent_capacity.
  - rewrite register_store. by apply register_begin_capacity.
  - unfold registerUser. destruct (users_has _ _); [done|].
    destruct (sendEmail _ _); exact Hdb.
Qed.

Lemma run_capacity rs db :
  capacity_respected db → capacity_respected (run rs db).
Proof.
  revert db. induction rs as [|[env r] rs IH]; intros db Hdb; [done|].
  simpl. apply IH. by apply handle_capacity.
Qed.

(** ** Requests handled while another one waits *)

(** An update that nothing interrupts is its two parts in a row. *)
Lemma updateEvent_segments env userId eventId b db :
  updateEvent env userId eventId b db
  = match update_begin env userId eventId b db with
    | (db', inl response) => (db', response)
    | (db', inr s) => update_end s db'
    end.
Proof.
  unfold updateEvent, update_begin.
  destruct (events db !! eventId) as [event|] eqn:Hev; [|done].
  destruct (negb _); [done|].
  destruct (capacity_refused b event); [done|].
  rewrite notifyParticipants_returns.
  destruct (_ || _); [|done].
  unfold update_end. cbn [us_eventId us_updated us_changedFields].
  by rewrite Hev.
Qed.

(** A deletion that nothing interrupts is its two parts in a row. *)
Lemma deleteEvent_segments env userId eventId db :
  deleteEvent env userId eventId db
  = match delete_begin env userId eventId db with
    | (db', inl response) => (db', response)
    | (db', inr s) => delete_end s db'
    end.
Proof.
  unfold deleteEvent, delete_begin.
  destruct (events db !! eventId) as [event|]; [|done].
  destruct (negb _); [done|].
  destruct (mapM _ _) as [notifications|]; [|done].
  unfold delete_end. cbn [ds_eventId ds_title ds_participants ds_mails].
  by destruct (if (0 <? _)%nat then _ else _).
Qed.

(** ** Capacities that are no integers *)

(** On an integer the two checks are those of the handlers above. *)
Lemma capacity_refused_integer b event c :
  b_capacity b = Some c →
  capacity_refused_at (QArith_base.inject_Z c) (Event.size event)
  = capacity_refused b event.
Proof.
  intros Hc. unfold capacity_refused, capacity_refused_at. rewrite Hc.
  unfold QArith_base.Qeq_bool, QArith_base.Qle_bool, QArith_base.inject_Z.
  cbn [QArith_base.Qnum QArith_base.Qden]. rewrite !Z.mul_1_r.
  f_equal. rewrite Z.ltb_antisym. done.
Qed.

Lemma event_full_integer event :
  event_full_at (QArith_base.inject_Z (Event.capacity event)) (Event.size event)
  = (Event.capacity event <=? Event.size event)%Z.
Proof.
  unfold event_full_at, QArith_base.Qle_bool, QArith_base.inject_Z.
  cbn [QArith_base.Qnum QArith_base.Qden]. by rewrite !Z.mul_1_r.
Qed.

(** C1 (as amended).  In every store reached from the empty store by a
    sequence of requests, each handled to its end before the next one is
    handled and all with integer capacities, an event with a non-negative
    capacity has at most as many participants as its capacity, and an event
    with a negative capacity has no participant. *)
Theorem reachable_capacity_respected rs eventId ev :
  events (run rs emptyDb) !! eventId = Some ev →
  ((0 ≤ Event.capacity ev)%Z → (Event.size ev ≤ Event.capacity ev)%Z)
  ∧ ((Event.capacity ev < 0)%Z → Event.participants ev = ∅).
Proof.
  intros Hev.
  pose proof (run_capacity rs emptyDb capacity_respected_empty _ _ Hev) as Hcap.
  unfold within_capacity in Hcap. split; [lia|].
  intros Hneg. unfold Event.size in Hcap.
  assert (size (Event.participants ev) = 0) as H0 by lia.
  by apply size_empty_inv, leibniz_equiv in H0.
Qed.

Lemma reachable_capacity_respected_witness :
  let ev := sampleEvent 2 {["u2"]} in
  ((0 ≤ Event.capacity ev)%Z → (Event.size ev ≤ Event.capacity ev)%Z)
  ∧ ((Event.capacity ev < 0)%Z → Event.participants ev = ∅).
Proof.
  intros ev.
  apply (reachable_capacity_respected
           [(sampleEnv, CreateEvent "owner" (sampleBody 2));
            (sampleEnv, Register "u2" sampleId)]
           sampleId (sampleEvent 2 {["u2"]})).
  vm_compute. reflexivity.
Defined.

(** C1 (as stated) fails, in three ways.
    - A request to create an event with capacity [-1] passes the
      validation, and the stored event has more participants (none) than
      capacity.
    - The owner lowers the capacity of an event with one participant from
      five to one; the check passes, and the handler awaits the mail to the
      participant.  A second user registers for the event meanwhile: the
      request is checked against the five places of the stored event and
      adds to the participant set that the copy shares.  The update then
      stores its copy: one place, two participants.
    - An update to the capacity [5/2] is accepted when the event has two
      participants, and is stored as it is; the check of a registration
      then lets a third participant in, and [3 > 5/2]. *)
Lemma capacity_exceeded :
  (∃ ev, events (run [(sampleEnv, CreateEvent "owner" (sampleBody (-1)))] emptyDb)
           !! sampleId = Some ev
         ∧ ¬ (Event.size ev ≤ Event.capacity ev)%Z)
  ∧ (∃ s ev,
       update_begin sampleEnv "owner" sampleId
         (mkEventBody None None None None (Some 1%Z)) aliceDb
       = (aliceDb, inr s)
       ∧ status (register sampleEnv bobId sampleId aliceDb).2 = 200
       ∧ status (update_end s (register sampleEnv bobId sampleId aliceDb).1).2 = 200
       ∧ events (update_end s (register sampleEnv bobId sampleId aliceDb).1).1
           !! sampleId = Some ev
       ∧ Event.capacity ev = 1%Z ∧ Event.size ev = 2%Z)
  ∧ (capacity_refused_at (QArith_base.Qmake 5 2) 2 = false
     ∧ event_full_at (QArith_base.Qmake 5 2) 2 = false
     ∧ QArith_base.Qlt (QArith_base.Qmake 5 2) (QArith_base.inject_Z 3)).
Proof.
  split_and!.
  - exists (sampleEvent (-1) ∅). split; [vm_compute; reflexivity|].
    vm_compute. intros H. by apply H.
  - eexists _, (Event.mk sampleId "Talk" "" "2024-01-01" "10:00" 1 "owner"
                  {[aliceId; bobId]} "2023-11-14T22:13:20.000Z"
                  (Some "2023-11-14T22:13:20.000Z")).
    split_and!; [vm_compute; reflexivity..].
  - reflexivity.
  - reflexivity.
  - reflexivity.
Qed.

(** ** Lowering the capacity *)

Lemma updateEvent_accepted env userId eventId b db event :
  events db !! eventId = Some event →
  Event.createdBy event = userId →
  capacity_refused b event = false →
  ∃ response,
    updateEvent env userId eventId b db
    = (set_events (insert eventId (updatedEvent env b event)) db, response)
    ∧ status response = 200.
Proof.
  intros Hev Hby Href. unfold updateEvent.
  rewrite Hev, Hby, String.eqb_refl, Href, notifyParticipants_returns. simpl.
  by eexists.
Qed.

(** Whatever the mail transport does, an update gives the same store and the
    same response. *)
Lemma updateEvent_any_mail env mail' userId eventId b db :
  updateEvent (mkEnv (now env) (isoNow env) mail' (hash env) (parseIntExp env))
      userId eventId b db
  = updateEvent env userId eventId b db.
Proof.
  unfold updateEvent.
  destruct (events db !! eventId) as [event|]; [|done].
  destruct (negb _); [done|].
  destruct (capacity_refused b event); [done|].
  by rewrite !notifyParticipants_returns.
Qed.

(** C2 (as amended).  When the owner sends a capacity that is not [0] and is
    below the number of participants, the update answers 400 with the
    current number of participants and the store is unchanged.  A capacity
    of [0] counts as no capacity: the update is applied, it answers 200 and
    the event keeps its capacity. *)
Theorem updateEvent_capacity_below_participants env userId eventId b db event c :
  events db !! eventId = Some event →
  Event.createdBy event = userId →
  b_capacity b = Some c →
  (c < Event.size event)%Z →
  (c ≠ 0%Z →
     updateEvent env userId eventId b db
     = (db, mkResponse 400
              (ErrorCapacity
                 "New capacity cannot be less than current number of participants"
                 (Event.size event))))
  ∧ (c = 0%Z →
     ∃ response,
       updateEvent env userId eventId b db
       = (set_events (insert eventId (updatedEvent env b event)) db, response)
       ∧ status response = 200
       ∧ Event.capacity (updatedEvent env b event) = Event.capacity event).
Proof.
  intros Hev Hby Hcap Hlt. split.
  - intros Hc. unfold updateEvent.
    rewrite Hev, Hby, String.eqb_refl. simpl.
    unfold capacity_refused. rewrite Hcap.
    destruct (Z.eqb_spec c 0); [done|].
    destruct (Z.ltb_spec c (Event.size event)); [done | lia].
  - intros ->.
    destruct (updateEvent_accepted env userId eventId b db event)
      as (response & Hupd & Hst); [done..| |].
    { unfold capacity_refused. by rewrite Hcap. }
    exists response. split_and!; [done..|].
    unfold updatedEvent, js_or_num. by rewrite Hcap.
Qed.

Lemma updateEvent_capacity_below_participants_witness :
  updateEvent sampleEnv "owner" sampleId (sampleBody 1)
    (mkDb [] {[sampleId := sampleEvent 3 {["u2"; "u3"]}]} ∅)
  = (mkDb [] {[sampleId := sampleEvent 3 {["u2"; "u3"]}]} ∅,
     mkResponse 400
       (ErrorCapacity
          "New capacity cannot be less than current number of participants" 2)).
Proof.
  refine (proj1 (updateEvent_capacity_below_participants sampleEnv "owner"
                   sampleId (sampleBody 1)
                   (mkDb [] {[sampleId := sampleEvent 3 {["u2"; "u3"]}]} ∅)
                   (sampleEvent 3 {["u2"; "u3"]}) 1 _ _ _ _) _);
    [reflexivity | reflexivity | reflexivity | vm_compute; reflexivity | lia].
Defined.

(** C2 (as stated) fails for capacity [0]: with one participant registered,
    the owner's update to capacity [0] answers 200 and rewrites the stored
    event. *)
Lemma updateEvent_capacity_zero_accepted :
  let db := mkDb [] {[sampleId := sampleEvent 2 {["u2"]}]} ∅ in
  let b := mkEventBody None None None None (Some 0%Z) in
  (0 < Event.size (sampleEvent 2 {["u2"]}))%Z
  ∧ status (updateEvent sampleEnv "owner" sampleId b db).2 = 200
  ∧ events (updateEvent sampleEnv "owner" sampleId b db).1 !! sampleId
    ≠ events db !! sampleId.
Proof.
  split_and!; [vm_compute; reflexivity | vm_compute; reflexivity |].
  vm_compute. intros [=].
Qed.

(** ** Registering twice *)

(** C3 (as amended).  A registration by a user who is already a participant
    answers 400 and leaves the whole store unchanged; the error is
    [Already registered for this event] while the event has a free place and
    [Event is full] when it has none, the capacity being checked first. *)
Theorem register_again env userId eventId db event :
  events db !! eventId = Some event →
  userId ∈ Event.participants event →
  register env userId eventId db
  = (db, mkResponse 400
           (Error (if (Event.capacity event <=? Event.size event)%Z
                   then "Event is full"
                   else "Already registered for this event"))).
Proof.
  intros Hev Hin. unfold register, register_begin. rewrite Hev.
  destruct (Event.capacity event <=? Event.size event)%Z; [done|].
  by rewrite bool_decide_eq_true_2.
Qed.

Lemma register_again_witness :
  register sampleEnv "u2" sampleId
    (mkDb [] {[sampleId := sampleEvent 2 {["u2"]}]} {["u2" := {[sampleId]}]})
  = (mkDb [] {[sampleId := sampleEvent 2 {["u2"]}]} {["u2" := {[sampleId]}]},
     mkResponse 400 (Error "Already registered for this event")).
Proof.
  etrans.
  - apply (register_again sampleEnv "u2" sampleId
             (mkDb [] {[sampleId := sampleEvent 2 {["u2"]}]} {["u2" := {[sampleId]}]})
             (sampleEvent 2 {["u2"]}));
      [reflexivity | vm_compute; reflexivity].
  - vm_compute. reflexivity.
Defined.

(** C3 (as stated) fails on a full event: the second registration of the only
    participant of an event of capacity 1 is answered [Event is full]. *)
Lemma register_again_full :
  let db := run [(sampleEnv, CreateEvent "owner" (sampleBody 1));
                 (sampleEnv, Register "u2" sampleId)] emptyDb in
  (∃ ev, events db !! sampleId = Some ev ∧ "u2" ∈ Event.participants ev)
  ∧ body (register sampleEnv "u2" sampleId db).2
    ≠ Error "Already registered for this event".
Proof.
  split.
  - exists (sampleEvent 1 {["u2"]}). split; [vm_compute; reflexivity|].
    vm_compute. reflexivity.
  - vm_compute. intros [=].
Qed.

(** ** What a registration changes *)

Lemma register_begin_commits userId eventId db event :
  events db !! eventId = Some event →
  (Event.size event < Event.capacity event)%Z →
  userId ∉ Event.participants event →
  (register_begin userId eventId db).1
  = mkDb (users db)
      (<[eventId := Event.add_participant userId event]> (events db))
      (<[userId := {[eventId]} ∪ default ∅ (userEvents db !! userId)]> (userEvents db)).
Proof.
  intros Hev Hlt Hnot. unfold register_begin. rewrite Hev.
  destruct (Z.leb_spec (Event.capacity event) (Event.size event)); [lia|].
  rewrite bool_decide_eq_false_2 by done.
  unfold set_userEvents, set_events; cbn [users events userEvents].
  match goal with
  | |- (match find_user _ ?d with Some user => (_, @?x user) | None => (_, ?y) end).1 = _ =>
      transitivity d
  end.
  { by destruct (find_user userId _). }
  case_bool_decide as Hsome; cbn [users events userEvents]; [done|].
  f_equal. apply eq_None_not_Some in Hsome.
  rewrite Hsome, lookup_insert_eq. cbn [default]. by rewrite insert_insert_eq.
Qed.

(** The response of a registration is decided by the event, the participant
    and the confirmation mail. *)
Lemma register_response env userId eventId db event :
  events db !! eventId = Some event →
  (Event.size event < Event.capacity event)%Z →
  userId ∉ Event.participants event →
  (register env userId eventId db).2
  = match find_user userId db with
    | Some user =>
        match sendEmail env (User.email user) with
        | Throw m => mkResponse 500 (ErrorDetails "Error registering for event" m)
        | Return _ =>
            registeredResponse eventId (Event.add_participant userId event)
        end
    | None => registeredResponse eventId (Event.add_participant userId event)
    end.
Proof.
  intros Hev Hlt Hnot. unfold register, register_begin. rewrite Hev.
  destruct (Z.leb_spec (Event.capacity event) (Event.size event)); [lia|].
  rewrite bool_decide_eq_false_2 by done.
  replace (find_user userId (set_userEvents _ _)) with (find_user userId db)
    by (by case_bool_decide).
  destruct (find_user userId db) as [user|]; [|done].
  unfold register_end; cbn [s_to s_eventId s_event].
  destruct (sendEmail env (User.email user)); [|done].
  f_equal. case_bool_decide; cbn [events set_userEvents set_events];
    by rewrite lookup_insert_eq.
Qed.

(** A registration that does not answer 200 or 500 changes nothing. *)
Lemma register_inv env userId eventId db :
  (∃ event, events db !! eventId = Some event
            ∧ (Event.size event < Event.capacity event)%Z
            ∧ userId ∉ Event.participants event)
  ∨ (register env userId eventId db).1 = db
    ∧ (status (register env userId eventId db).2 = 404
       ∨ status (register env userId eventId db).2 = 400).
Proof.
  unfold register, register_begin.
  destruct (events db !! eventId) as [event|] eqn:Hev; [|right; split; auto].
  destruct (Z.leb_spec (Event.capacity event) (Event.size event));
    [right; split; auto|].
  case_bool_decide; [right; split; auto|].
  left. by exists event.
Qed.

(** C10.  A registration that answers 200 leaves every user record (its
    profile and counters included) and every other event as they were, adds
    the caller to the participants of the event and changes nothing else of
    it, leaves every other user's set of registered events as it was, and
    adds the event to the caller's set, starting from the empty set when the
    caller had none. *)
Theorem register_frame env userId eventId db :
  status (register env userId eventId db).2 = 200 →
  let db' := (register env userId eventId db).1 in
  users db' = users db
  ∧ (∀ e, e ≠ eventId → events db' !! e = events db !! e)
  ∧ (∃ event, events db !! eventId = Some event
              ∧ events db' !! eventId
                = Some (Event.mk (Event.id event) (Event.title event)
                          (Event.description event) (Event.date event)
                          (Event.time event) (Event.capacity event)
                          (Event.createdBy event)
                          ({[userId]} ∪ Event.participants event)
                          (Event.createdAt event) (Event.updatedAt event)))
  ∧ (∀ u, u ≠ userId → userEvents db' !! u = userEvents db !! u)
  ∧ userEvents db' !! userId
    = Some ({[eventId]} ∪ default ∅ (userEvents db !! userId)).
Proof.
  intros Hst db'.
  destruct (register_inv env userId eventId db)
    as [(event & Hev & Hlt & Hnot)|[_ [H|H]]];
    [|rewrite H in Hst; discriminate..].
  subst db'. rewrite register_store, (register_begin_commits _ _ _ event) by done.
  cbn [users events userEvents]. split_and!.
  - done.
  - intros e Hne. by rewrite lookup_insert_ne.
  - exists event. split; [done|]. by rewrite lookup_insert_eq.
  - intros u Hne. by rewrite lookup_insert_ne.
  - by rewrite lookup_insert_eq.
Qed.

Lemma register_frame_witness :
  let db := mkDb [] {[sampleId := sampleEvent 2 ∅]} ∅ in
  let db' := (register sampleEnv "u2" sampleId db).1 in
  users db' = users db
  ∧ (∀ e, e ≠ sampleId → events db' !! e = events db !! e)
  ∧ (∃ event, events db !! sampleId = Some event
              ∧ events db' !! sampleId
                = Some (Event.mk (Event.id event) (Event.title event)
                          (Event.description event) (Event.date event)
                          (Event.time event) (Event.capacity event)
                          (Event.createdBy event)
                          ({["u2"]} ∪ Event.participants event)
                          (Event.createdAt event) (Event.updatedAt event)))
  ∧ (∀ u, u ≠ "u2" → userEvents db' !! u = userEvents db !! u)
  ∧ userEvents db' !! "u2"
    = Some ({[sampleId]} ∪ default ∅ (userEvents db !! "u2")).
Proof.
  apply (register_frame sampleEnv "u2" sampleId
           (mkDb [] {[sampleId := sampleEvent 2 ∅]} ∅)).
  vm_compute. reflexivity.
Defined.

(** ** The registration scenario and the confirmation mail *)


(** A registration whose confirmation mail is delivered, or that sends none,
    answers 200. *)
Lemma register_delivered env userId eventId db event :
  events db !! eventId = Some event →
  (Event.size event < Event.capacity event)%Z →
  userId ∉ Event.participants event →
  (∀ user, find_user userId db = Some user → mail env (User.email user) = true) →
  register env userId eventId db
  = (mkDb (users db)
       (<[eventId := Event.add_participant userId event]> (events db))
       (<[userId := {[eventId]} ∪ default ∅ (userEvents db !! userId)]>
          (userEvents db)),
     registeredResponse eventId (Event.add_participant userId event)).
Proof.
  intros Hev Hlt Hnot Hmail.
  rewrite (surjective_pairing (register env userId eventId db)).
  rewrite register_store, (register_begin_commits _ _ _ event) by done.
  rewrite (register_response _ _ _ _ event) by done.
  f_equal. destruct (find_user userId db) as [user|]; [|done].
  unfold sendEmail. by rewrite (Hmail user).
Qed.

(** The scenario of C7 when every confirmation mail is delivered: two
    registrations fill an empty event of capacity 2 and report 1 and 0 places
    left, the third is refused. *)
Lemma registration_scenario env db eventId event a b c :
  events db !! eventId = Some event →
  Event.capacity event = 2%Z →
  Event.participants event = ∅ →
  a ≠ b →
  (∀ u user, find_user u db = Some user → mail env (User.email user) = true) →
  let ra := register env a eventId db in
  let rb := register env b eventId ra.1 in
  let rc := register env c eventId rb.1 in
  status ra.2 = 200 ∧ spotsRemaining ra.2 = Some 1%Z
  ∧ status rb.2 = 200 ∧ spotsRemaining rb.2 = Some 0%Z
  ∧ rc.2 = mkResponse 400 (Error "Event is full") ∧ rc.1 = rb.1.
Proof.
  intros Hev Hcap Hpart Hab Hmail ra rb rc.
  assert (Event.size event = 0%Z) as Hsz.
  { unfold Event.size. by rewrite Hpart, size_empty. }
  assert (ra = (mkDb (users db)
                  (<[eventId := Event.add_participant a event]> (events db))
                  (<[a := {[eventId]} ∪ default ∅ (userEvents db !! a)]>
                     (userEvents db)),
                registeredResponse eventId (Event.add_participant a event)))
    as Hra.
  { apply register_delivered; [done|lia|rewrite Hpart; set_solver|apply Hmail]. }
  assert (Event.size (Event.add_participant a event) = 1%Z) as Hsz1.
  { rewrite Event_size_add by (rewrite Hpart; set_solver). lia. }
  assert (a ∈ Event.participants (Event.add_participant a event)) as Hina.
  { unfold Event.add_participant; cbn [Event.participants]. set_solver. }
  assert (b ∉ Event.participants (Event.add_participant a event)) as Hnotb.
  { unfold Event.add_participant; cbn [Event.participants].
    rewrite Hpart. set_solver. }
  assert (rb = (mkDb (users ra.1)
                  (<[eventId := Event.add_participant b (Event.add_participant a event)]>
                     (events ra.1))
                  (<[b := {[eventId]} ∪ default ∅ (userEvents ra.1 !! b)]>
                     (userEvents ra.1)),
                registeredResponse eventId
                  (Event.add_participant b (Event.add_participant a event))))
    as Hrb.
  { apply register_delivered.
    - rewrite Hra. cbn [fst events]. by rewrite lookup_insert_eq.
    - rewrite Hsz1. cbn [Event.add_participant Event.capacity]. lia.
    - done.
    - rewrite Hra. apply Hmail. }
  assert (Event.size (Event.add_participant b (Event.add_participant a event)) = 2%Z)
    as Hsz2.
  { rewrite Event_size_add by done. lia. }
  assert (rc = (rb.1, mkResponse 400 (Error "Event is full"))) as Hrc.
  { subst rc. unfold register, register_begin.
    rewrite Hrb. cbn [fst events]. rewrite lookup_insert_eq.
    rewrite Hsz2. cbn [Event.add_participant Event.capacity]. by rewrite Hcap. }
  rewrite Hrc, Hrb, Hra. cbn [fst snd registeredResponse status body spotsRemaining].
  rewrite Hsz1, Hsz2. cbn [Event.add_participant Event.capacity]. rewrite Hcap.
  done.
Qed.

(** C7 (where the code departs from it).  When the caller has an account and
    the confirmation mail cannot be sent, a registration to an event with a
    free place answers 500, although the caller has been added to the
    participants of the event. *)
Theorem register_confirmation_undelivered env userId eventId db event user :
  events db !! eventId = Some event →
  (Event.size event < Event.capacity event)%Z →
  userId ∉ Event.participants event →
  find_user userId db = Some user →
  mail env (User.email user) = false →
  (register env userId eventId db).2
  = mkResponse 500 (ErrorDetails "Error registering for event" "Failed to send email")
  ∧ events (register env userId eventId db).1 !! eventId
    = Some (Event.add_participant userId event).
Proof.
  intros Hev Hlt Hnot Huser Hmail. split.
  - rewrite (register_response _ _ _ _ event) by done.
    rewrite Huser. unfold sendEmail. by rewrite Hmail.
  - rewrite register_store, (register_begin_commits _ _ _ event) by done.
    cbn [events]. by rewrite lookup_insert_eq.
Qed.

Lemma register_confirmation_undelivered_witness :
  let db := run [(aliceEnv, RegisterUser aliceBody);
                 (sampleEnv, CreateEvent "owner" (sampleBody 2))] emptyDb in
  (register noMailEnv aliceId sampleId db).2
  = mkResponse 500 (ErrorDetails "Error registering for event" "Failed to send email")
  ∧ events (register noMailEnv aliceId sampleId db).1 !! sampleId
    = Some (Event.add_participant aliceId (sampleEvent 2 ∅)).
Proof.
  intros db.
  apply (register_confirmation_undelivered noMailEnv aliceId sampleId db
           (sampleEvent 2 ∅)
           (User.mk "alice@example.org" "secret" "Alice" "attendee" aliceId
              (Profile.mk "Alice" "" [] "2023-07-22T04:26:40.000Z" 0 0)));
    [vm_compute; reflexivity | vm_compute; reflexivity
    | vm_compute; intros [=] | vm_compute; reflexivity | reflexivity].
Defined.

(** ** Event ids *)

Lemma digit_pretty_N_char d : (d < 10)%N → digit (pretty_N_char d) = d.
Proof.
  intros Hd.
  assert (d = 0 ∨ d = 1 ∨ d = 2 ∨ d = 3 ∨ d = 4 ∨ d = 5 ∨ d = 6 ∨ d = 7
          ∨ d = 8 ∨ d = 9)%N as Hcases by lia.
  repeat destruct Hcases as [->|Hcases]; try reflexivity.
  by subst d.
Qed.

Lemma readDigits_pretty_N_go x s :
  readDigits (pretty_N_go x s) 0 = readDigits s x.
Proof.
  revert s. induction (N.lt_wf_0 x) as [x _ IH]; intros s.
  destruct (decide (x = 0)%N) as [->|Hx]; [by rewrite pretty_N_go_0|].
  rewrite pretty_N_go_step by lia.
  rewrite IH by (apply N.div_lt; lia).
  cbn [readDigits]. rewrite digit_pretty_N_char by (apply N.mod_lt; lia).
  f_equal. symmetry. apply N.div_mod. lia.
Qed.

(** Reading a generated id gives back the clock reading it was made of. *)
Lemma readId_pretty (n : N) : readId (pretty n) = n.
Proof.
  unfold readId, pretty, pretty_N.
  destruct (decide (n = 0)%N) as [->|Hn]; [done|].
  apply readDigits_pretty_N_go.
Qed.

Lemma createEvent_created env userId b db :
  status (createEvent env userId b db).2 = 201 →
  createdId (createEvent env userId b db).2 = Some (pretty (now env))
  ∧ ∃ event,
      (createEvent env userId b db).1
      = set_events (insert (pretty (now env)) event) db
      ∧ Event.id event = pretty (now env)
      ∧ Event.createdBy event = userId
      ∧ Event.participants event = ∅.
Proof.
  unfold createEvent.
  destruct (negb (truthy userId)); [discriminate|].
  destruct (_ || _); [discriminate|].
  intros _. split; [done|]. by eexists.
Qed.

(** What a creation answered 201 was given, and what it did. *)
Lemma createEvent_201 env userId b db :
  status (createEvent env userId b db).2 = 201 →
  ∃ t d tm c,
    b_title b = Some t ∧ b_date b = Some d ∧ b_time b = Some tm
    ∧ b_capacity b = Some c
    ∧ (createEvent env userId b db).1
      = set_events
          (insert (pretty (now env))
             (Event.mk (pretty (now env)) t (js_or (b_description b) "") d tm
                (parseInt env c) userId ∅ (isoNow env) None)) db.
Proof.
  unfold createEvent. destruct (negb (truthy userId)); [discriminate|].
  destruct (b_title b) as [t|], (b_date b) as [d|], (b_time b) as [tm|],
    (b_capacity b) as [c|]; cbn [truthy_opt truthy_num negb orb];
    rewrite ?orb_true_r; try discriminate.
  destruct (negb (truthy t) || negb (truthy d) || negb (truthy tm)
            || negb (negb (c =? 0)%Z)); [discriminate|].
  intros _. by exists t, d, tm, c.
Qed.

Lemma parseInt_small env c : (Z.abs c < 10 ^ 21)%Z → parseInt env c = c.
Proof. intros Hc. unfold parseInt. by rewrite (proj2 (Z.ltb_lt _ _) Hc). Qed.

(** C8 (as amended).  The id of a created event is the decimal rendering of
    the clock reading in milliseconds: read as a number it is that reading,
    so ids compare as the clock readings do; the ids of two successful
    creations are equal exactly when the two clock readings are equal.  A
    successful creation stores under its id the new event, made of the
    body, with the caller as creator and no participant, whatever the store
    held under that id before: a creation whose clock reading is that of a
    stored event replaces that event.  It leaves every event stored under
    another id as it was. *)
Theorem createEvent_ids env1 env2 userId1 userId2 b1 b2 db1 db2 :
  status (createEvent env1 userId1 b1 db1).2 = 201 →
  status (createEvent env2 userId2 b2 db2).2 = 201 →
  ∃ id1 id2 event2,
    createdId (createEvent env1 userId1 b1 db1).2 = Some id1
    ∧ createdId (createEvent env2 userId2 b2 db2).2 = Some id2
    ∧ readId id1 = now env1 ∧ readId id2 = now env2
    ∧ (id1 = id2 ↔ now env1 = now env2)
    ∧ events (createEvent env2 userId2 b2 db2).1 !! id2 = Some event2
    ∧ Event.id event2 = id2
    ∧ b_title b2 = Some (Event.title event2)
    ∧ b_date b2 = Some (Event.date event2)
    ∧ b_time b2 = Some (Event.time event2)
    ∧ Event.capacity event2 = parseInt env2 (default 0%Z (b_capacity b2))
    ∧ Event.createdBy event2 = userId2
    ∧ Event.participants event2 = ∅
    ∧ Event.createdAt event2 = isoNow env2
    ∧ (∀ e, e ≠ id2 →
         events (createEvent env2 userId2 b2 db2).1 !! e = events db2 !! e).
Proof.
  intros [Hid1 _]%createEvent_created H2.
  destruct (createEvent_created _ _ _ _ H2) as [Hid2 _].
  destruct (createEvent_201 _ _ _ _ H2) as (t & d & tm & c & Ht & Hd & Htm & Hc & Hdb).
  exists (pretty (now env1)), (pretty (now env2)).
  eexists. rewrite Hdb, Ht, Hd, Htm, Hc. cbn [set_events events].
  split_and!; [done | done | apply readId_pretty | apply readId_pretty | |
               apply lookup_insert_eq | done.. |].
  - split; [apply (inj pretty) | by intros ->].
  - intros e Hne. by rewrite lookup_insert_ne.
Qed.

Lemma createEvent_ids_witness :
  ∃ id1 id2 event2,
    createdId (createEvent sampleEnv "owner" (sampleBody 2) ghostDb).2 = Some id1
    ∧ createdId (createEvent sampleEnv "other" (sampleBody 5)
                   (createEvent sampleEnv "owner" (sampleBody 2) ghostDb).1).2
      = Some id2
    ∧ readId id1 = now sampleEnv ∧ readId id2 = now sampleEnv
    ∧ (id1 = id2 ↔ now sampleEnv = now sampleEnv)
    ∧ events (createEvent sampleEnv "other" (sampleBody 5)
                (createEvent sampleEnv "owner" (sampleBody 2) ghostDb).1).1 !! id2
      = Some event2
    ∧ Event.id event2 = id2
    ∧ b_title (sampleBody 5) = Some (Event.title event2)
    ∧ b_date (sampleBody 5) = Some (Event.date event2)
    ∧ b_time (sampleBody 5) = Some (Event.time event2)
    ∧ Event.capacity event2
      = parseInt sampleEnv (default 0%Z (b_capacity (sampleBody 5)))
    ∧ Event.createdBy event2 = "other"
    ∧ Event.participants event2 = ∅
    ∧ Event.createdAt event2 = isoNow sampleEnv
    ∧ (∀ e, e ≠ id2 →
         events (createEvent sampleEnv "other" (sampleBody 5)
                   (createEvent sampleEnv "owner" (sampleBody 2) ghostDb).1).1 !! e
         = events (createEvent sampleEnv "owner" (sampleBody 2) ghostDb).1 !! e).
Proof.
  apply (createEvent_ids sampleEnv sampleEnv "owner" "other"
           (sampleBody 2) (sampleBody 5) ghostDb
           (createEvent sampleEnv "owner" (sampleBody 2) ghostDb).1);
    vm_compute; reflexivity.
Defined.

(** C8 (as stated) fails: two creations in the same millisecond both answer
    201 with the same id, and the second replaces the event of the first
    in the store. *)
Lemma createEvent_same_millisecond :
  let first := createEvent sampleEnv "owner" (sampleBody 2) emptyDb in
  let second := createEvent sampleEnv "other" (sampleBody 5) first.1 in
  status first.2 = 201 ∧ status second.2 = 201
  ∧ createdId first.2 = createdId second.2
  ∧ events first.1 !! sampleId = Some (sampleEvent 2 ∅)
  ∧ events second.1 !! sampleId ≠ Some (sampleEvent 2 ∅).
Proof.
  split_and!; try (vm_compute; reflexivity).
  vm_compute. intros [=].
Qed.

(** ** Deleting an event *)

(** When every participant resolves to a user, the deletion goes through
    whatever the mail transport does: mails that fail only settle their
    promise. *)
Lemma deleteEvent_resolved env userId eventId db event :
  events db !! eventId = Some event →
  Event.createdBy event = userId →
  (∀ p, p ∈ Event.participants event → is_Some (find_user p db)) →
  deleteEvent env userId eventId db
  = (mkDb (users db) (delete eventId (events db))
       (unregisterAll eventId (elements (Event.participants event)) (userEvents db)),
     mkResponse 200
       (EventDeleted "Event deleted successfully" eventId (Event.title event)
          (size (Event.participants event)))).
Proof.
  intros Hev Hby Hres. unfold deleteEvent.
  rewrite Hev, Hby, String.eqb_refl. cbn [negb].
  rewrite mapM_cancellationNotice.
  destruct (0 <? _)%nat; [rewrite sendBulkEmails_all_defined|]; try done.
  apply Forall_forall. intros n (p & -> & Hp)%list_elem_of_fmap.
  apply elem_of_elements, Hres in Hp as [u ->]. by eexists.
Qed.

Lemma deleteEvent_no_participants env userId eventId db event :
  events db !! eventId = Some event →
  Event.createdBy event = userId →
  Event.participants event = ∅ →
  status (deleteEvent env userId eventId db).2 = 200.
Proof.
  intros Hev Hby Hpart.
  rewrite (deleteEvent_resolved env userId eventId db event); [done..|].
  intros p. rewrite Hpart. set_solver.
Qed.

(** C5 (where the code departs from it).  When a participant of the event
    resolves to no user, the owner's deletion answers 500 and the event stays
    in the store as it was, while the event has already been removed from the
    participants' sets of registered events. *)
Theorem deleteEvent_unresolved env userId eventId db event p :
  events db !! eventId = Some event →
  Event.createdBy event = userId →
  p ∈ Event.participants event →
  find_user p db = None →
  deleteEvent env userId eventId db
  = (mkDb (users db) (events db)
       (unregisterAll eventId (elements (Event.participants event)) (userEvents db)),
     mkResponse 500 (Error "Error deleting event")).
Proof.
  intros Hev Hby Hp Hnone. unfold deleteEvent.
  rewrite Hev, Hby, String.eqb_refl. cbn [negb].
  rewrite mapM_cancellationNotice.
  assert (p ∈ elements (Event.participants event)) as Hin
    by by apply elem_of_elements.
  destruct (Nat.ltb_spec 0
              (length (map (λ p, (λ u, mkNotification (User.email u)
                                         "Event Cancellation Notice")
                                 <$> find_user p db)
                         (elements (Event.participants event))))) as [_|Hlen].
  - rewrite sendBulkEmails_undefined; [done|].
    apply list_elem_of_fmap. exists p. by rewrite Hnone.
  - rewrite length_map in Hlen.
    destruct (elements (Event.participants event)); [|simpl in Hlen; lia].
    by apply elem_of_nil in Hin.
Qed.

Lemma deleteEvent_unresolved_witness :
  deleteEvent sampleEnv "owner" sampleId
    (mkDb [] {[sampleId := sampleEvent 2 {["ghost"]}]} {["ghost" := {[sampleId]}]})
  = (mkDb [] {[sampleId := sampleEvent 2 {["ghost"]}]} {["ghost" := ∅]},
     mkResponse 500 (Error "Error deleting event")).
Proof.
  etrans.
  - apply (deleteEvent_unresolved sampleEnv "owner" sampleId
             (mkDb [] {[sampleId := sampleEvent 2 {["ghost"]}]}
                {["ghost" := {[sampleId]}]})
             (sampleEvent 2 {["ghost"]}) "ghost");
      vm_compute; reflexivity.
  - vm_compute. reflexivity.
Defined.

(** C4 (where the code departs from it).  In a store reached by registering
    a user with an account and a caller without one for an event, the
    owner's deletion answers 500 and the event is still stored with its two
    participants, although it has been taken out of their sets of registered
    events. *)
Theorem deleteEvent_with_ghost_fails :
  deleteEvent sampleEnv "owner" sampleId ghostDb
  = (mkDb (users ghostDb) (events ghostDb) {[aliceId := ∅; "ghost" := ∅]},
     mkResponse 500 (Error "Error deleting event"))
  ∧ events ghostDb !! sampleId = Some (sampleEvent 3 {[aliceId; "ghost"]})
  ∧ userEvents ghostDb = {[aliceId := {[sampleId]}; "ghost" := {[sampleId]}]}.
Proof. split_and!; vm_compute; reflexivity. Qed.

(** With accounts for all participants the same deletion succeeds and
    reports their number, also when no mail can be sent. *)
Example deleteEvent_mail_fails :
  let db := run [(aliceEnv, RegisterUser aliceBody);
                 (sampleEnv, CreateEvent "owner" (sampleBody 3));
                 (sampleEnv, Register aliceId sampleId)] emptyDb in
  deleteEvent noMailEnv "owner" sampleId db
  = (mkDb (users db) ∅ {[aliceId := ∅]},
     mkResponse 200 (EventDeleted "Event deleted successfully" sampleId "Talk" 1)).
Proof. vm_compute. reflexivity. Qed.

(** ** The registration index *)

Lemma consistent_empty : consistent emptyDb.
Proof.
  intros u e. cbn [emptyDb events userEvents]. rewrite !lookup_empty.
  split; intros (? & ? & _); done.
Qed.

Lemma createEvent_consistent env userId b db :
  consistent db →
  (status (createEvent env userId b db).2 = 201 →
   events db !! pretty (now env) = None) →
  consistent (createEvent env userId b db).1.
Proof.
  intros Hdb. unfold createEvent.
  destruct (negb (truthy userId)); [done|].
  destruct (_ || _); [done|].
  cbn [snd status]. intros Hfresh. specialize (Hfresh eq_refl).
  intros u e. cbn [fst set_events events userEvents].
  destruct (decide (e = pretty (now env))) as [->|Hne].
  - rewrite lookup_insert_eq. split.
    + intros (ev & [= <-] & Hin). cbn [Event.participants] in Hin. set_solver.
    + intros Hs. apply Hdb in Hs as (ev & Hev & _). congruence.
  - rewrite lookup_insert_ne by done. apply Hdb.
Qed.

Lemma updateEvent_consistent env userId eventId b db :
  consistent db → consistent (updateEvent env userId eventId b db).1.
Proof.
  intros Hdb. unfold updateEvent.
  destruct (events db !! eventId) as [event|] eqn:Hev; [|done].
  destruct (negb _); [done|].
  destruct (capacity_refused b event); [done|].
  rewrite notifyParticipants_returns.
  intros u e. cbn [fst set_events events userEvents].
  rewrite <-(Hdb u e).
  destruct (decide (e = eventId)) as [->|Hne].
  - rewrite lookup_insert_eq, Hev. split.
    + intros (ev & [= <-] & Hin). by exists event.
    + intros (ev & [= <-] & Hin). by eexists.
  - by rewrite lookup_insert_ne.
Qed.

Lemma register_consistent env userId eventId db :
  consistent db → consistent (register env userId eventId db).1.
Proof.
  intros Hdb.
  destruct (register_inv env userId eventId db)
    as [(event & Hev & Hlt & Hnot)|[-> _]]; [|done].
  rewrite register_store, (register_begin_commits _ _ _ event) by done.
  intros u e. cbn [events userEvents].
  destruct (decide (e = eventId)) as [->|Hne];
    destruct (decide (u = userId)) as [->|Hnu];
    rewrite ?lookup_insert_eq, ?lookup_insert_ne by done.
  - split; intros _.
    + eexists. split; [done|]. set_solver.
    + eexists. split; [done|]. cbn [Event.add_participant Event.participants].
      set_solver.
  - rewrite <-(Hdb u eventId), Hev. split.
    + intros (ev & [= <-] & Hin). exists event. split; [done|].
      cbn [Event.add_participant Event.participants] in Hin. set_solver.
    + intros (ev & [= <-] & Hin). eexists. split; [done|].
      cbn [Event.add_participant Event.participants]. set_solver.
  - rewrite (Hdb userId e). split.
    + intros (s & Hs & Hin). eexists. split; [done|]. rewrite Hs. set_solver.
    + intros (s & [= <-] & Hin).
      destruct (userEvents db !! userId) as [s|]; [|set_solver].
      exists s. split; [done|]. cbn [default] in Hin. set_solver.
  - apply Hdb.
Qed.

Lemma deleteEvent_consistent env userId eventId db :
  consistent db →
  status (deleteEvent env userId eventId db).2 ≠ 500 →
  consistent (deleteEvent env userId eventId db).1.
Proof.
  intros Hdb. unfold deleteEvent.
  destruct (events db !! eventId) as [event|] eqn:Hev; [|done].
  destruct (negb _); [done|].
  rewrite mapM_cancellationNotice.
  destruct (if (0 <? _)%nat then _ else _); [|done].
  intros _ u e. cbn [fst set_events set_userEvents events userEvents].
  rewrite unregisterAll_lookup.
  destruct (decide (e = eventId)) as [->|Hne].
  - rewrite lookup_delete_eq. split; [intros (? & ? & _); done|].
    intros (s & Hs & Hin). exfalso.
    destruct (decide (u ∈ elements (Event.participants event))) as [Hu|Hu].
    + destruct (userEvents db !! u); simplify_eq/=. set_solver.
    + assert (∃ ev, events db !! eventId = Some ev ∧ u ∈ Event.participants ev)
        as (ev & Hev' & Hin') by (apply Hdb; eauto).
      simplify_eq. by apply Hu, elem_of_elements.
  - rewrite lookup_delete_ne by done. rewrite (Hdb u e).
    destruct (decide (u ∈ elements (Event.participants event))); [|done].
    split.
    + intros (s & Hs & Hin). rewrite Hs. eexists. split; [done|]. set_solver.
    + intros (s & Hs & Hin).
      destruct (userEvents db !! u) as [s'|]; simplify_eq/=.
      eexists. split; [done|]. set_solver.
Qed.

Lemma registerUser_consistent env b db :
  consistent db →
  (users_has (b_email b) db = false →
   userEvents db !! pretty (now env) = None) →
  consistent (registerUser env b db).1.
Proof.
  intros Hdb Hfresh. unfold registerUser.
  destruct (users_has _ _); [done|]. specialize (Hfresh eq_refl).
  assert (consistent
            (mkDb (users db ++
                     [User.mk (b_email b) (hash env (b_password b)) (b_name b)
                        (default "attendee" (b_role b)) (pretty (now env))
                        (Profile.mk (b_name b) "" [] (isoNow env) 0 0)])
               (events db) (<[pretty (now env) := ∅]> (userEvents db)))) as Hdb1.
  { intros u e. cbn [events userEvents User.id].
    destruct (decide (u = pretty (now env))) as [->|Hne].
    - rewrite lookup_insert_eq, (Hdb (pretty (now env)) e), Hfresh.
      split; [intros (? & ? & _); done|]. intros (s & [= <-] & Hin). set_solver.
    - rewrite lookup_insert_ne by done. apply Hdb. }
  by destruct (sendEmail env (b_email b)).
Qed.

Lemma handle_consistent env r db :
  consistent db → admissible env r db → consistent (handle env r db).1.
Proof.
  intros Hdb Hadm. destruct r as [u b|u e b|u e|u e|b]; cbn [handle admissible] in *.
  - by apply createEvent_consistent.
  - by apply updateEvent_consistent.
  - by apply deleteEvent_consistent.
  - by apply register_consistent.
  - by apply registerUser_consistent.
Qed.

(** After a deletion that answers 200 on a consistent store the event is
    gone and no user's set of registered events lists it. *)
Lemma deleteEvent_cleans env userId eventId db :
  consistent db →
  status (deleteEvent env userId eventId db).2 = 200 →
  events (deleteEvent env userId eventId db).1 !! eventId = None
  ∧ ∀ u s, userEvents (deleteEvent env userId eventId db).1 !! u = Some s →
           eventId ∉ s.
Proof.
  intros Hdb Hst.
  assert (events (deleteEvent env userId eventId db).1 !! eventId = None) as Hgone.
  { revert Hst. unfold deleteEvent.
    destruct (events db !! eventId) as [event|] eqn:Hev; [|discriminate].
    destruct (negb _); [discriminate|].
    rewrite mapM_cancellationNotice.
    destruct (if (0 <? _)%nat then _ else _); [|discriminate].
    intros _. cbn [fst set_events events]. apply lookup_delete_eq. }
  split; [done|]. intros u s Hs Hin.
  assert (consistent (deleteEvent env userId eventId db).1) as Hcons.
  { apply deleteEvent_consistent; [done|]. rewrite Hst. discriminate. }
  destruct (proj2 (Hcons u eventId)) as (ev & Hev & _); [by eauto|].
  congruence.
Qed.

(** C6 (as amended).  The store reached from the empty store by a sequence
    of requests, each handled to its end before the next one is handled, is
    consistent in both directions, provided that every id made from the
    clock by a creation answered 201 or by the registration of a user whose
    email is free is not in use when it is made, and that no deletion ends
    in the error response. *)
Theorem run_consistent rs :
  admissible_run rs emptyDb → consistent (run rs emptyDb).
Proof.
  generalize consistent_empty. generalize emptyDb.
  induction rs as [|[env r] rs IH]; intros db Hdb Hadm; [done|].
  destruct Hadm as [Hadm Hrest]. cbn [run foldl fst snd] in *.
  apply IH; [by apply handle_consistent | done].
Qed.

Lemma run_consistent_witness :
  consistent (run [(aliceEnv, RegisterUser aliceBody);
                   (sampleEnv, CreateEvent "owner" (sampleBody 3));
                   (sampleEnv, Register aliceId sampleId);
                   (sampleEnv, DeleteEvent "owner" sampleId)] emptyDb).
Proof.
  apply (run_consistent [(aliceEnv, RegisterUser aliceBody);
                         (sampleEnv, CreateEvent "owner" (sampleBody 3));
                         (sampleEnv, Register aliceId sampleId);
                         (sampleEnv, DeleteEvent "owner" sampleId)]).
  repeat split; vm_compute;
    first [reflexivity | discriminate | intros _; reflexivity].
Defined.

(** C6 (as stated) fails, in three ways.
    - A second creation in the same millisecond replaces an event that has a
      participant by an event without participants, and the participant's
      set of registered events still lists the id.
    - A new user is registered at the clock reading that gave the id of a
      user who is registered for an event: that user's set of registered
      events is replaced by an empty one, while the event still has the
      user as participant.
    - The owner deletes an event whose participant has an account: the
      handler removes the id from the participant's set and awaits the
      mails.  A second user registers for the event meanwhile: the request
      finds the event and puts its id in the caller's set.  The deletion then removes the event
      and answers 200: the caller's set lists an id that is not stored. *)
Lemma index_broken :
  ¬ consistent (run [(sampleEnv, CreateEvent "owner" (sampleBody 2));
                     (sampleEnv, Register "u2" sampleId);
                     (sampleEnv, CreateEvent "owner" (sampleBody 2))] emptyDb)
  ∧ ¬ consistent
        (run [(aliceEnv, RegisterUser
                           (mkUserBody "carol@example.org" "pass" "Carol" None))]
           aliceDb)
  ∧ (∃ db1 s,
       delete_begin sampleEnv "owner" sampleId aliceDb = (db1, inr s)
       ∧ status (register sampleEnv bobId sampleId db1).2 = 200
       ∧ status (delete_end s (register sampleEnv bobId sampleId db1).1).2 = 200
       ∧ ¬ consistent (delete_end s (register sampleEnv bobId sampleId db1).1).1).
Proof.
  split_and!.
  - intros Hcons.
    destruct (proj2 (Hcons "u2" sampleId)) as (ev & Hev & Hin).
    + exists {[sampleId]}. split; vm_compute; reflexivity.
    + vm_compute in Hev. injection Hev as <-. vm_compute in Hin. discriminate.
  - intros Hcons.
    destruct (proj1 (Hcons aliceId sampleId)) as (s & Hs & Hin).
    + exists (sampleEvent 5 {[aliceId]}). split; vm_compute; reflexivity.
    + vm_compute in Hs. injection Hs as <-. vm_compute in Hin. discriminate.
  - eexists _, _. split_and!; [vm_compute; reflexivity..|].
    intros Hcons.
    destruct (proj2 (Hcons bobId sampleId)) as (ev & Hev & _).
    + exists {[sampleId]}. split; vm_compute; reflexivity.
    + vm_compute in Hev. discriminate.
Qed.

(** ** Registrations in flight *)

Lemma count_insert (p : Task → bool) ts i t t' :
  ts !! i = Some t →
  count p (<[i := t']> ts) + (if p t then 1 else 0)
  = count p ts + (if p t' then 1 else 0).
Proof.
  unfold count. revert i.
  induction ts as [|x ts IH]; intros [|i] Hi; simplify_eq/=; [lia|].
  specialize (IH i Hi). lia.
Qed.

Lemma count_pos (p : Task → bool) ts i t :
  ts !! i = Some t → p t = true → 0 < count p ts.
Proof.
  unfold count. revert i.
  induction ts as [|x ts IH]; intros [|i] Hi Hp; simplify_eq/=.
  - rewrite Hp. lia.
  - specialize (IH i Hi Hp). lia.
Qed.

Lemma count_split (p q : Task → bool) ts :
  Forall (λ t, (if p t then 1 else 0) + (if q t then 1 else 0) = 1) ts →
  count p ts + count q ts = length ts.
Proof.
  unfold count. induction 1 as [|t ts Ht _ IH]; simpl; lia.
Qed.

Lemma count_launch p db userIds :
  (∀ u, p (Ready u) = false) → count p (tasks (launch db userIds)) = 0.
Proof.
  intros Hp. unfold launch; cbn [tasks].
  induction userIds as [|u us IH]; [done|].
  rewrite fmap_cons. unfold count in *. cbn [sum_list_with].
  by rewrite Hp, IH.
Qed.

Lemma interleave_snoc eventId sched ei sys :
  interleave eventId (sched ++ [ei]) sys
  = step eventId ei (interleave eventId sched sys).
Proof. unfold interleave. by rewrite foldl_app. Qed.

Lemma find_user_users userId db1 db2 :
  users db1 = users db2 → find_user userId db1 = find_user userId db2.
Proof. unfold find_user. by intros ->. Qed.

(** The first segment of a registration that passes both checks. *)
Lemma register_begin_free userId eventId db event :
  events db !! eventId = Some event →
  (Event.size event < Event.capacity event)%Z →
  userId ∉ Event.participants event →
  register_begin userId eventId db
  = (mkDb (users db)
       (<[eventId := Event.add_participant userId event]> (events db))
       (<[userId := {[eventId]} ∪ default ∅ (userEvents db !! userId)]>
          (userEvents db)),
     match find_user userId db with
     | Some user =>
         inr (mkSuspended eventId (Event.add_participant userId event)
                (User.email user))
     | None => inl (registeredResponse eventId (Event.add_participant userId event))
     end).
Proof.
  intros Hev Hlt Hnot.
  rewrite (surjective_pairing (register_begin userId eventId db)).
  rewrite (register_begin_commits _ _ _ event) by done. f_equal.
  unfold register_begin. rewrite Hev.
  destruct (Z.leb_spec (Event.capacity event) (Event.size event)); [lia|].
  rewrite bool_decide_eq_false_2 by done.
  replace (find_user userId (set_userEvents _ _)) with (find_user userId db)
    by (by case_bool_decide).
  by destruct (find_user userId db).
Qed.

Lemma eventFull_status r : eventFull r = true → status r = 400.
Proof.
  unfold eventFull. destruct (body r); try discriminate.
  intros [H _]%andb_prop. by apply Nat.eqb_eq.
Qed.

Lemma task_ok_mono db sched ei ev t :
  task_ok db sched ev t → task_ok db (sched ++ [ei]) ev t.
Proof.
  destruct t as [u|u s|u r]; cbn [task_ok]; [done..|].
  intros [H|[[H [Hno|(ei' & user & Hin & Hrest)]]
            |(H & ei' & user & Hin & Hrest)]].
  - by left.
  - right; left. split; [done|]. by left.
  - right; left. split; [done|]. right. exists ei', user.
    split; [|done]. apply elem_of_app. by left.
  - right; right. split; [done|]. exists ei', user.
    split; [|done]. apply elem_of_app. by left.
Qed.

(** A registration that is answered, or that stays as it is, without a
    change of the store. *)
Lemma in_flight_replace db eventId event userIds sched ei sys i t t' :
  in_flight db eventId event userIds sched sys →
  tasks sys !! i = Some t →
  task_user t' = task_user t →
  registered t' = registered t →
  (refused t' = true →
   ∀ ev, events (store sys) !! eventId = Some ev →
         (Event.capacity ev ≤ Event.size ev)%Z) →
  (refused t' = false → refused t = false) →
  (∀ ev, events (store sys) !! eventId = Some ev →
         task_ok db (sched ++ [ei]) ev t') →
  in_flight db eventId event userIds (sched ++ [ei])
    (mkSystem (store sys) (<[i := t']> (tasks sys))).
Proof.
  intros (ev & Hev & Hcap & Husers & Hids & Hsize & Hle & Hfull & Hok)
    Ht Huser Hreg Href Href' Hnew.
  exists ev. cbn [store tasks]. split_and!; try done.
  - rewrite list_fmap_insert, Huser. rewrite list_insert_id; [done|].
    by rewrite list_lookup_fmap, Ht.
  - pose proof (count_insert registered _ _ _ t' Ht) as Hc.
    rewrite Hreg in Hc. rewrite Hsize. f_equal. lia.
  - intros Hpos. destruct (refused t') eqn:Hr.
    + specialize (Href eq_refl ev Hev). lia.
    + apply Hfull. pose proof (count_insert refused _ _ _ t' Ht) as Hc.
      rewrite Hr, (Href' eq_refl) in Hc. lia.
  - intros j tj. destruct (decide (j = i)) as [->|Hne].
    + rewrite list_lookup_insert_eq by (by eapply lookup_lt_Some).
      intros [= <-]. by apply Hnew.
    + rewrite list_lookup_insert_ne by done.
      intros Hj. by apply task_ok_mono, (Hok j).
Qed.

Lemma in_flight_step db eventId event userIds sched ei sys :
  NoDup userIds →
  in_flight db eventId event userIds sched sys →
  in_flight db eventId event userIds (sched ++ [ei]) (step eventId ei sys).
Proof.
  intros Hnodup Hinv. unfold step.
  destruct (tasks sys !! ei.2) as [t|] eqn:Ht; cycle 1.
  { destruct Hinv as (ev & H1 & H2 & H3 & H4 & H5 & H6 & H7 & Hok).
    exists ev. split_and!; try done.
    intros i t Hi. by apply task_ok_mono, (Hok i). }
  pose proof Hinv as (ev & Hev & Hcap & Husers & Hids & Hsize & Hle & Hfull & Hok).
  pose proof (Hok _ _ Ht) as Ht_ok.
  destruct t as [u|u s|u r]; cbn [step_task task_ok] in *.
  - destruct (Z.leb_spec (Event.capacity ev) (Event.size ev)) as [Hge|Hlt].
    + (* the event is full *)
      unfold register_begin. rewrite Hev.
      destruct (Z.leb_spec (Event.capacity ev) (Event.size ev)); [|lia].
      eapply in_flight_replace; try done.
      * intros _ ev' Hev'. by simplify_eq.
      * intros ev' _. by left.
    + (* the registration is committed *)
      rewrite (register_begin_free _ _ _ ev) by done.
      set (t' := match find_user u (store sys) with
                 | Some user =>
                     Awaiting u (mkSuspended eventId (Event.add_participant u ev)
                                   (User.email user))
                 | None =>
                     Done u (registeredResponse eventId (Event.add_participant u ev))
                 end).
      assert (registered t' = true ∧ refused t' = false ∧ task_user t' = u)
        as (Hreg & Href & Huser).
      { subst t'. by destruct (find_user u (store sys)). }
      assert (∀ ev', task_ok db (sched ++ [ei]) ev' t') as Hnew.
      { intros ev'. subst t'. rewrite (find_user_users u _ db) by done.
        destruct (find_user u db) as [user|] eqn:Hu; cbn [task_ok s_to].
        - by exists user.
        - right; left. split; [done|]. by left. }
      match goal with
      | |- in_flight _ _ _ _ _ (let '(db', t'') := ?p in _) =>
          replace p with
            (mkDb (users (store sys))
               (<[eventId := Event.add_participant u ev]> (events (store sys)))
               (<[u := {[eventId]} ∪ default ∅ (userEvents (store sys) !! u)]>
                  (userEvents (store sys))), t')
            by (subst t'; by destruct (find_user u (store sys)))
      end.
      exists (Event.add_participant u ev). cbn [store tasks events users].
      pose proof (count_insert registered _ _ _ t' Ht) as Hc1.
      pose proof (count_insert refused _ _ _ t' Ht) as Hc2.
      rewrite Hreg in Hc1. rewrite Href in Hc2. cbn [registered refused] in Hc1, Hc2.
      split_and!; try done.
      * by rewrite lookup_insert_eq.
      * rewrite list_fmap_insert, Huser. rewrite list_insert_id; [done|].
        by rewrite list_lookup_fmap, Ht.
      * rewrite Event_size_add by done. lia.
      * rewrite Event_size_add by done. lia.
      * intros Hpos. rewrite Event_size_add by done.
        assert (Event.capacity event ≤ Event.size ev)%Z by (apply Hfull; lia). lia.
      * intros j tj. destruct (decide (j = ei.2)) as [->|Hne].
        -- rewrite list_lookup_insert_eq by (by eapply lookup_lt_Some).
           intros [= <-]. apply Hnew.
        -- rewrite list_lookup_insert_ne by done. intros Hj.
           pose proof (Hok _ _ Hj) as Hj_ok.
           destruct tj as [uj|uj sj|uj rj];
             [|exact (task_ok_mono db sched ei ev _ Hj_ok)..].
           cbn [task_ok] in *. cbn [Event.add_participant Event.participants].
           assert (uj ≠ u); [|set_solver].
           intros ->. apply Hne.
           rewrite <-Hids in Hnodup.
           eapply (NoDup_lookup _ _ _ u Hnodup);
             rewrite list_lookup_fmap; [by rewrite Hj | by rewrite Ht].
  - (* the confirmation mail has settled *)
    destruct Ht_ok as (user & Huser & Hto).
    eapply in_flight_replace; try done.
    + unfold register_end, sendEmail. cbn [registered].
      by destruct (mail ei.1 (s_to s)).
    + unfold register_end, sendEmail. cbn [refused].
      by destruct (mail ei.1 (s_to s)).
    + intros ev' _. cbn [task_ok]. unfold register_end, sendEmail.
      destruct (mail ei.1 (s_to s)) eqn:Hmail.
      * right; left. split; [done|]. right. exists ei, user.
        split_and!; [apply elem_of_app; right; by apply list_elem_of_singleton
                    | done | by rewrite <-Hto].
      * right; right. split; [done|]. exists ei, user.
        split_and!; [apply elem_of_app; right; by apply list_elem_of_singleton
                    | done | by rewrite <-Hto].
  - (* already answered *)
    eapply in_flight_replace; try done.
    + intros Hr ev' Hev'. simplify_eq. rewrite Hcap. apply Hfull.
      by eapply count_pos.
    + intros ev' Hev'. simplify_eq. by apply task_ok_mono.
Qed.

Lemma in_flight_launch db eventId event userIds :
  events db !! eventId = Some event →
  Event.participants event = ∅ →
  (0 ≤ Event.capacity event)%Z →
  in_flight db eventId event userIds [] (launch db userIds).
Proof.
  intros Hev Hempty Hcap. exists event.
  rewrite !count_launch by done. cbn [launch store tasks].
  assert (Event.size event = 0%Z) as Hsz.
  { unfold Event.size. by rewrite Hempty, size_empty. }
  split_and!; try done; try lia.
  - rewrite <-list_fmap_compose. apply list_fmap_id.
  - intros i t (u & -> & _)%list_lookup_fmap_Some. cbn [task_ok].
    rewrite Hempty. set_solver.
Qed.

Lemma in_flight_interleave db eventId event userIds sched :
  events db !! eventId = Some event →
  Event.participants event = ∅ →
  (0 ≤ Event.capacity event)%Z →
  NoDup userIds →
  in_flight db eventId event userIds sched
    (interleave eventId sched (launch db userIds)).
Proof.
  intros Hev Hempty Hcap Hnodup.
  induction sched as [|ei sched IH] using rev_ind.
  - by apply in_flight_launch.
  - rewrite interleave_snoc. by apply in_flight_step.
Qed.

Lemma count_ext (p q : Task → bool) ts :
  Forall (λ t, p t = q t) ts → count p ts = count q ts.
Proof.
  unfold count. induction 1 as [|t ts Ht _ IH]; simpl; [done|].
  by rewrite Ht, IH.
Qed.

Lemma count_sum (p q r : Task → bool) ts :
  Forall (λ t, (if p t then 1 else 0) + (if q t then 1 else 0)
               = (if r t then 1 else 0)) ts →
  count p ts + count q ts = count r ts.
Proof.
  unfold count. induction 1 as [|t ts Ht _ IH]; simpl; lia.
Qed.

Lemma count_none (p : Task → bool) ts :
  Forall (λ t, p t = false) ts → count p ts = 0.
Proof.
  unfold count. induction 1 as [|t ts Ht _ IH]; simpl; [done|].
  by rewrite Ht, IH.
Qed.

(** A pick runs the next segment of the registration it picks, and leaves
    the other registrations where they are. *)
Lemma step_rank eventId ei sys i t :
  tasks sys !! i = Some t →
  ∃ t', tasks (step eventId ei sys) !! i = Some t'
        ∧ (if decide (ei.2 = i) then 2 `min` (rank t + 1) else rank t) ≤ rank t'.
Proof.
  intros Ht. unfold step.
  destruct (decide (ei.2 = i)) as [->|Hne].
  - rewrite Ht.
    destruct (step_task ei.1 eventId t (store sys)) as [db' t'] eqn:Hstep.
    exists t'. cbn [tasks].
    split; [apply list_lookup_insert_eq; by eapply lookup_lt_Some|].
    destruct t as [u|u s|u r]; cbn [step_task] in Hstep.
    + destruct (register_begin u eventId (store sys)) as [db'' [r|s]];
        simplify_eq; cbn [rank]; lia.
    + simplify_eq. cbn [rank]. lia.
    + simplify_eq. cbn [rank]. lia.
  - destruct (tasks sys !! ei.2) as [t0|]; [|by exists t].
    destruct (step_task ei.1 eventId t0 (store sys)) as [db' t'].
    exists t. cbn [tasks]. by rewrite list_lookup_insert_ne.
Qed.

Lemma picks_cons i ei sched :
  picks i (ei :: sched) = (if decide (ei.2 = i) then 1 else 0) + picks i sched.
Proof.
  unfold picks. rewrite filter_cons. by destruct (decide (ei.2 = i)).
Qed.

Lemma interleave_rank eventId sched sys i t :
  tasks sys !! i = Some t →
  ∃ t', tasks (interleave eventId sched sys) !! i = Some t'
        ∧ 2 `min` (rank t + picks i sched) ≤ rank t'.
Proof.
  revert sys t. induction sched as [|ei sched IH]; intros sys t Ht.
  - exists t. split; [done|]. unfold picks. rewrite filter_nil.
    cbn [length]. lia.
  - destruct (step_rank eventId ei sys i t Ht) as (t1 & Ht1 & Hr1).
    destruct (IH _ _ Ht1) as (t' & Ht' & Hr').
    exists t'. split; [done|]. rewrite picks_cons.
    destruct (decide (ei.2 = i)); lia.
Qed.

Lemma interleave_length eventId sched sys :
  length (tasks (interleave eventId sched sys)) = length (tasks sys).
Proof.
  revert sys. unfold interleave.
  induction sched as [|ei sched IH]; intros sys; [done|].
  cbn [foldl]. rewrite IH. unfold step.
  destruct (tasks sys !! ei.2); [|done].
  destruct (step_task _ _ _ _). cbn [tasks]. by rewrite length_insert.
Qed.

(** An interleaving that picks every registration twice answers them all. *)
Lemma complete_answered eventId db userIds sched :
  complete (length userIds) sched = true →
  Forall (λ t, answered t = true)
    (tasks (interleave eventId sched (launch db userIds))).
Proof.
  intros Hcomplete. unfold complete in Hcomplete.
  rewrite forallb_forall in Hcomplete.
  assert (length (tasks (interleave eventId sched (launch db userIds)))
          = length userIds) as Hlen.
  { rewrite interleave_length. cbn [launch tasks]. apply length_fmap. }
  apply Forall_lookup. intros i t' Ht'.
  assert (i < length userIds) as Hi by (rewrite <-Hlen; by eapply lookup_lt_Some).
  destruct (lookup_lt_is_Some_2 userIds i Hi) as [u Hu].
  assert (tasks (launch db userIds) !! i = Some (Ready u)) as Ht.
  { cbn [launch tasks]. by rewrite list_lookup_fmap, Hu. }
  destruct (interleave_rank eventId sched _ i _ Ht) as (t'' & Ht'' & Hrank).
  rewrite Ht' in Ht''. injection Ht'' as <-.
  specialize (Hcomplete i). rewrite in_seq in Hcomplete.
  assert (2 ≤ picks i sched) as Hp by (apply Nat.leb_le, Hcomplete; lia).
  cbn [rank] in Hrank. destruct t'; cbn [rank] in Hrank; [lia..|done].
Qed.

(** C9.  Registrations of distinct users for one event, launched together on
    a store where the event has no participant and a capacity [c ≥ 0], and
    interleaved in any order at the points where the handler awaits.  At
    every moment the event has at most [c] participants, as many as there
    are registrations that got through.  An interleaving that runs each of
    the [n] calls to its end answers them all; exactly [min n c]
    registrations got through and the other [n - min n c] calls were
    answered [Event is full].  A registration that got through is answered
    200 or 500: they are all answered 200 when no confirmation mail fails,
    and when every caller has an account and every confirmation mail
    fails, no call at all is answered 200 although [min n c] callers are
    registered. *)
Theorem concurrent_registrations eventId db event userIds sched :
  events db !! eventId = Some event →
  Event.participants event = ∅ →
  (0 ≤ Event.capacity event)%Z →
  NoDup userIds →
  let sys := interleave eventId sched (launch db userIds) in
  let n := length userIds in
  let c := Z.to_nat (Event.capacity event) in
  (∃ ev, events (store sys) !! eventId = Some ev
         ∧ Event.capacity ev = Event.capacity event
         ∧ (Event.size ev ≤ Event.capacity ev)%Z
         ∧ Event.size ev = Z.of_nat (count registered (tasks sys)))
  ∧ (complete n sched = true →
     Forall (λ t, answered t = true) (tasks sys)
     ∧ count registered (tasks sys) = n `min` c
     ∧ count refused (tasks sys) = n - n `min` c
     ∧ count answered_200 (tasks sys) + count answered_500 (tasks sys) = n `min` c
     ∧ (Forall (λ ei : Env * nat, ∀ addr, mail ei.1 addr = true) sched →
        count answered_200 (tasks sys) = n `min` c)
     ∧ (Forall (λ u, is_Some (find_user u db)) userIds →
        Forall (λ ei : Env * nat, ∀ addr, mail ei.1 addr = false) sched →
        count answered_200 (tasks sys) = 0
        ∧ count answered_500 (tasks sys) = n `min` c)).
Proof.
  intros Hev Hempty Hcap Hnodup sys n c.
  destruct (in_flight_interleave db eventId event userIds sched Hev Hempty Hcap Hnodup)
    as (ev & Hev' & Hcap' & Husers & Hids & Hsize & Hle & Hfull & Hok).
  fold sys in Hev', Husers, Hids, Hsize, Hfull, Hok.
  split.
  { exists ev. split_and!; [done..| by rewrite Hcap' | done]. }
  intros Hcomplete.
  pose proof (complete_answered eventId db userIds sched Hcomplete) as Hall.
  fold sys in Hall.
  assert (length (tasks sys) = n) as Hlen.
  { subst n. by rewrite <-Hids, length_fmap. }
  assert (Forall (λ t, (if registered t then 1 else 0)
                       + (if refused t then 1 else 0) = 1) (tasks sys)) as Hone.
  { apply Forall_lookup. intros i t Ht.
    pose proof (Hok _ _ Ht) as Ht_ok.
    rewrite Forall_lookup in Hall. specialize (Hall _ _ Ht).
    destruct t as [u|u s|u r]; try discriminate.
    cbn [task_ok registered refused] in *.
    destruct Ht_ok as [Hf|[[H200 _]|[H500 _]]].
    - rewrite Hf, (eventFull_status _ Hf). done.
    - destruct (eventFull r) eqn:Hf;
        [apply eventFull_status in Hf; congruence|]. by rewrite H200.
    - destruct (eventFull r) eqn:Hf;
        [apply eventFull_status in Hf; congruence|]. by rewrite H500. }
  apply count_split in Hone. rewrite Hlen in Hone.
  assert (count registered (tasks sys) = n `min` c
          ∧ count refused (tasks sys) = n - n `min` c) as [Hreg Href].
  { destruct (decide (0 < count refused (tasks sys))) as [Hpos|Hzero].
    - specialize (Hfull Hpos). subst c. lia.
    - subst c. lia. }
  assert (count answered_200 (tasks sys) + count answered_500 (tasks sys)
          = count registered (tasks sys)) as Hsum.
  { apply count_sum, Forall_lookup. intros i t Ht.
    rewrite Forall_lookup in Hall. specialize (Hall _ _ Ht).
    destruct t as [u|u s|u r]; try discriminate.
    cbn [answered_200 answered_500 registered].
    destruct (Nat.eqb_spec (status r) 200) as [->|]; [done|].
    by destruct (status r =? 500)%nat. }
  split_and!; [done | done | done | by rewrite Hsum | |].
  - intros Hmail. rewrite <-Hreg. apply count_ext.
    apply Forall_lookup. intros i t Ht.
    pose proof (Hok _ _ Ht) as Ht_ok.
    rewrite Forall_lookup in Hall. specialize (Hall _ _ Ht).
    destruct t as [u|u s|u r]; try discriminate.
    cbn [task_ok registered answered_200] in *.
    destruct Ht_ok as [Hf|[[H200 _]|[H500 (ei & user & Hin & Hu & Hm)]]].
    + by rewrite (eventFull_status _ Hf).
    + by rewrite H200.
    + rewrite Forall_forall in Hmail. rewrite (Hmail ei Hin) in Hm. discriminate.
  - intros Haccounts Hfail.
    assert (count answered_200 (tasks sys) = 0) as Hzero; [|lia].
    apply count_none, Forall_lookup. intros i t Ht.
    pose proof (Hok _ _ Ht) as Ht_ok.
    destruct t as [u|u s|u r]; [done..|].
    cbn [task_ok answered_200] in *.
    assert (is_Some (find_user u db)) as [user Huser].
    { rewrite Forall_forall in Haccounts. apply Haccounts. rewrite <-Hids.
      apply list_elem_of_fmap. exists (Done u r). split; [done|].
      by eapply list_elem_of_lookup_2. }
    destruct Ht_ok as [Hf|[[H200 [Hno|(ei & user' & Hin & Hu & Hm)]]|[H500 _]]].
    + by rewrite (eventFull_status _ Hf).
    + congruence.
    + rewrite Forall_forall in Hfail. rewrite (Hfail ei Hin) in Hm. discriminate.
    + by rewrite H500.
Qed.

(** Two users with an account call for the one place of an event while the
    mail transport rejects every message: the first is registered and
    answered 500, the second is answered [Event is full]; no call is
    answered 200. *)
Lemma concurrent_registrations_witness :
  let db := run [(aliceEnv, RegisterUser aliceBody);
                 (bobEnv, RegisterUser bobBody);
                 (sampleEnv, CreateEvent "owner" (sampleBody 1))] emptyDb in
  let sched := [(noMailEnv, 0); (noMailEnv, 1); (noMailEnv, 1); (noMailEnv, 0)] in
  let sys := interleave sampleId sched (launch db [aliceId; bobId]) in
  Forall (λ t, answered t = true) (tasks sys)
  ∧ count registered (tasks sys) = 1
  ∧ count refused (tasks sys) = 1
  ∧ count answered_200 (tasks sys) = 0
  ∧ count answered_500 (tasks sys) = 1.
Proof.
  intros db sched sys.
  assert (events db !! sampleId = Some (sampleEvent 1 ∅)) as Hev
    by (vm_compute; reflexivity).
  assert (NoDup [aliceId; bobId]) as Hnodup
    by (apply (bool_decide_unpack _); vm_compute; exact I).
  destruct (concurrent_registrations sampleId db (sampleEvent 1 ∅)
              [aliceId; bobId] sched Hev eq_refl
              ltac:(vm_compute; discriminate) Hnodup) as [_ Hdone].
  destruct (Hdone eq_refl) as (Hall & Hreg & Href & _ & _ & Hfail).
  destruct Hfail as [H200 H500].
  - repeat constructor; vm_compute; by eexists.
  - repeat constructor.
  - by split_and!.
Defined.

(** Three registrations for two places, handled in the order third, first,
    second: the one handled last is refused. *)
Example interleaving_three_for_two :
  let db := mkDb [] {[sampleId := sampleEvent 2 ∅]} ∅ in
  tasks (interleave sampleId
           [(sampleEnv, 2); (sampleEnv, 0); (sampleEnv, 1)]
           (launch db ["u1"; "u2"; "u3"]))
  = [Done "u1" (registeredResponse sampleId (sampleEvent 2 {["u1"; "u3"]}));
     Done "u2" (mkResponse 400 (Error "Event is full"));
     Done "u3" (registeredResponse sampleId (sampleEvent 2 {["u3"]}))].
Proof. vm_compute. reflexivity. Qed.

(** * Further properties of the handlers *)

(** ** Errors come before effects *)

Lemma register_status env userId eventId db :
  status (register env userId eventId db).2 = 200
  ∨ status (register env userId eventId db).2 = 500
  ∨ (register env userId eventId db).1 = db.
Proof.
  destruct (register_inv env userId eventId db)
    as [(event & Hev & Hlt & Hnot)|[-> _]]; [|by right; right].
  rewrite (register_response _ _ _ _ event) by done.
  destruct (find_user userId db) as [user|]; [|by left].
  destruct (sendEmail env (User.email user)); [by left | by right; left].
Qed.

(** X1.  A request that is answered with a status from 400 to 499 leaves the
    store exactly as it was, whichever of the five requests it is. *)
Theorem client_error_leaves_store env r db :
  400 ≤ status (handle env r db).2 < 500 →
  (handle env r db).1 = db.
Proof.
  destruct r as [u b|u e b|u e|u e|b]; cbn [handle].
  - unfold createEvent. destruct (negb (truthy u)); [done|].
    destruct (_ || _); [done|]. cbn [snd status]. lia.
  - unfold updateEvent. destruct (events db !! e) as [event|]; [|done].
    destruct (negb _); [done|]. destruct (capacity_refused b event); [done|].
    rewrite notifyParticipants_returns. cbn [snd status]. lia.
  - unfold deleteEvent. destruct (events db !! e) as [event|]; [|done].
    destruct (negb _); [done|]. rewrite mapM_cancellationNotice.
    destruct (if (0 <? _)%nat then _ else _); cbn [snd status]; lia.
  - destruct (register_status env u e db) as [H|[H|H]]; [rewrite H; lia..|done].
  - unfold registerUser. destruct (users_has _ _); [done|].
    destruct (sendEmail _ _); cbn [snd status]; lia.
Qed.

Lemma client_error_leaves_store_witness :
  (handle sampleEnv (UpdateEvent "intruder" sampleId (sampleBody 9)) ghostDb).1
  = ghostDb.
Proof.
  apply (client_error_leaves_store sampleEnv
           (UpdateEvent "intruder" sampleId (sampleBody 9)) ghostDb).
  vm_compute. lia.
Defined.

(** X2.  Only the creator of an event can update or delete it: for any
    other caller both requests answer 403 and change nothing, whatever the
    body of the update. *)
Theorem only_creator_mutates env userId eventId b db event :
  events db !! eventId = Some event →
  Event.createdBy event ≠ userId →
  updateEvent env userId eventId b db
  = (db, mkResponse 403
           (Error "Unauthorized: Only the event creator can update this event"))
  ∧ deleteEvent env userId eventId db
    = (db, mkResponse 403
             (Error "Unauthorized: Only the event creator can delete this event")).
Proof.
  intros Hev Hne. unfold updateEvent, deleteEvent. rewrite Hev.
  destruct (String.eqb_spec (Event.createdBy event) userId); done.
Qed.

Lemma only_creator_mutates_witness :
  updateEvent sampleEnv "intruder" sampleId (sampleBody 9) ghostDb
  = (ghostDb, mkResponse 403
                (Error "Unauthorized: Only the event creator can update this event"))
  ∧ deleteEvent sampleEnv "intruder" sampleId ghostDb
    = (ghostDb, mkResponse 403
                  (Error "Unauthorized: Only the event creator can delete this event")).
Proof.
  apply (only_creator_mutates sampleEnv "intruder" sampleId (sampleBody 9) ghostDb
           (sampleEvent 3 {[aliceId; "ghost"]}));
    [vm_compute; reflexivity | vm_compute; intros [=]].
Defined.

(** ** Creating an event *)

(** X3.  A creation answered 201 whose capacity is below [10^21] in absolute
    value stores, under the id it reports, an event that carries the title,
    date, time and capacity of the body, the description of the body or the
    empty string, the caller as creator and no participant; users,
    registrations and the events under other ids are untouched. *)
Theorem createEvent_stores env userId b db :
  status (createEvent env userId b db).2 = 201 →
  (∀ c, b_capacity b = Some c → (Z.abs c < 10 ^ 21)%Z) →
  let db' := (createEvent env userId b db).1 in
  ∃ event,
    createdId (createEvent env userId b db).2 = Some (Event.id event)
    ∧ events db' !! Event.id event = Some event
    ∧ b_title b = Some (Event.title event)
    ∧ b_date b = Some (Event.date event)
    ∧ b_time b = Some (Event.time event)
    ∧ b_capacity b = Some (Event.capacity event)
    ∧ Event.description event = default "" (b_description b)
    ∧ Event.createdBy event = userId
    ∧ Event.participants event = ∅
    ∧ users db' = users db
    ∧ userEvents db' = userEvents db
    ∧ ∀ e, e ≠ Event.id event → events db' !! e = events db !! e.
Proof.
  intros Hst Hsmall.
  destruct (createEvent_created _ _ _ _ Hst) as [Hid _].
  destruct (createEvent_201 _ _ _ _ Hst) as (t & d & tm & c & Ht & Hd & Htm & Hc & Hdb).
  cbn zeta. rewrite Hid, Hdb, Ht, Hd, Htm, Hc.
  rewrite (parseInt_small env c) by by apply Hsmall.
  exists (Event.mk (pretty (now env)) t (js_or (b_description b) "") d tm
            c userId ∅ (isoNow env) None).
  cbn [Event.id Event.title Event.date Event.time Event.capacity
       Event.description Event.createdBy Event.participants
       set_events events users userEvents].
  split_and!; try reflexivity.
  - apply lookup_insert_eq.
  - destruct (b_description b) as [s0|]; [|done]. cbn [js_or default].
    unfold truthy. by destruct (String.eqb_spec s0 "") as [->|].
  - intros e Hne. by rewrite lookup_insert_ne.
Qed.

Lemma createEvent_stores_witness :
  let db' := (createEvent sampleEnv "owner" (sampleBody 2) emptyDb).1 in
  ∃ event,
    createdId (createEvent sampleEnv "owner" (sampleBody 2) emptyDb).2
    = Some (Event.id event)
    ∧ events db' !! Event.id event = Some event
    ∧ b_title (sampleBody 2) = Some (Event.title event)
    ∧ b_date (sampleBody 2) = Some (Event.date event)
    ∧ b_time (sampleBody 2) = Some (Event.time event)
    ∧ b_capacity (sampleBody 2) = Some (Event.capacity event)
    ∧ Event.description event = default "" (b_description (sampleBody 2))
    ∧ Event.createdBy event = "owner"
    ∧ Event.participants event = ∅
    ∧ users db' = users emptyDb
    ∧ userEvents db' = userEvents emptyDb
    ∧ ∀ e, e ≠ Event.id event → events db' !! e = events emptyDb !! e.
Proof.
  apply (createEvent_stores sampleEnv "owner" (sampleBody 2) emptyDb).
  - vm_compute. reflexivity.
  - intros c [= <-]. vm_compute. reflexivity.
Defined.



(** ** Updating an event *)

Lemma updateEvent_200_inv env userId eventId b db :
  status (updateEvent env userId eventId b db).2 = 200 →
  ∃ event,
    events db !! eventId = Some event
    ∧ Event.createdBy event = userId
    ∧ capacity_refused b event = false
    ∧ (updateEvent env userId eventId b db).1
      = set_events (insert eventId (updatedEvent env b event)) db.
Proof.
  unfold updateEvent. destruct (events db !! eventId) as [event|]; [|discriminate].
  destruct (String.eqb_spec (Event.createdBy event) userId) as [Hby|];
    [|discriminate]. cbn [negb].
  destruct (capacity_refused b event) eqn:Href; [discriminate|].
  rewrite notifyParticipants_returns. intros _. by exists event.
Qed.

(** X5.  An update answered 200 replaces the one event and nothing else: it
    keeps the id, the creator, the creation time and the participants of
    the event, stamps it with the time of the update, and leaves the users,
    the registrations and every other event untouched. *)
Theorem updateEvent_frame env userId eventId b db :
  status (updateEvent env userId eventId b db).2 = 200 →
  let db' := (updateEvent env userId eventId b db).1 in
  users db' = users db
  ∧ userEvents db' = userEvents db
  ∧ (∀ e, e ≠ eventId → events db' !! e = events db !! e)
  ∧ ∃ event event',
      events db !! eventId = Some event
      ∧ events db' !! eventId = Some event'
      ∧ Event.id event' = Event.id event
      ∧ Event.createdBy event' = Event.createdBy event
      ∧ Event.createdAt event' = Event.createdAt event
      ∧ Event.participants event' = Event.participants event
      ∧ Event.updatedAt event' = Some (isoNow env).
Proof.
  intros (event & Hev & _ & _ & Hdb)%updateEvent_200_inv db'.
  subst db'. rewrite Hdb. cbn [set_events users userEvents events].
  split_and!; [done | done | by intros e Hne; rewrite lookup_insert_ne|].
  exists event, (updatedEvent env b event).
  by rewrite lookup_insert_eq.
Qed.

Lemma updateEvent_frame_witness :
  let db' := (updateEvent sampleEnv "owner" sampleId (sampleBody 5) ghostDb).1 in
  users db' = users ghostDb
  ∧ userEvents db' = userEvents ghostDb
  ∧ (∀ e, e ≠ sampleId → events db' !! e = events ghostDb !! e)
  ∧ ∃ event event',
      events ghostDb !! sampleId = Some event
      ∧ events db' !! sampleId = Some event'
      ∧ Event.id event' = Event.id event
      ∧ Event.createdBy event' = Event.createdBy event
      ∧ Event.createdAt event' = Event.createdAt event
      ∧ Event.participants event' = Event.participants event
      ∧ Event.updatedAt event' = Some (isoNow sampleEnv).
Proof.
  apply (updateEvent_frame sampleEnv "owner" sampleId (sampleBody 5) ghostDb).
  vm_compute. reflexivity.
Defined.

Lemma js_or_idem o d : js_or o (js_or o d) = js_or o d.
Proof. unfold js_or. destruct o as [s|]; [|done]. by destruct (truthy s). Qed.

Lemma js_or_num_idem o d : js_or_num o (js_or_num o d) = js_or_num o d.
Proof. unfold js_or_num. destruct o as [c|]; [|done]. by destruct (c =? 0)%Z. Qed.

(** X6.  Sending the same update a second time changes nothing more: the
    second request is answered 200 again and the store stays as the first
    left it. *)
Theorem updateEvent_twice env userId eventId b db :
  status (updateEvent env userId eventId b db).2 = 200 →
  let db' := (updateEvent env userId eventId b db).1 in
  (updateEvent env userId eventId b db').1 = db'
  ∧ status (updateEvent env userId eventId b db').2 = 200.
Proof.
  intros (event & Hev & Hby & Href & Hdb)%updateEvent_200_inv db'.
  subst db'. rewrite Hdb.
  assert (capacity_refused b (updatedEvent env b event) = false) as Href'.
  { revert Href. unfold capacity_refused, updatedEvent, Event.size, js_or_num.
    cbn [Event.participants Event.capacity].
    destruct (b_capacity b) as [c|]; [|done].
    destruct (Z.eqb_spec c 0); [done|]. cbn [negb andb]. done. }
  destruct (updateEvent_accepted env userId eventId b
              (set_events (insert eventId (updatedEvent env b event)) db)
              (updatedEvent env b event)) as (response & Hupd & Hst);
    [cbn [set_events events]; apply lookup_insert_eq | done | done |].
  rewrite Hupd. split; [|done]. unfold set_events.
  cbn [fst users events userEvents].
  f_equal. rewrite insert_insert_eq. f_equal.
  unfold updatedEvent.
  cbn [Event.id Event.title Event.description Event.date Event.time
       Event.capacity Event.createdBy Event.participants Event.createdAt].
  by rewrite !js_or_idem, js_or_num_idem.
Qed.

Lemma updateEvent_twice_witness :
  let db' := (updateEvent sampleEnv "owner" sampleId (sampleBody 5) ghostDb).1 in
  (updateEvent sampleEnv "owner" sampleId (sampleBody 5) db').1 = db'
  ∧ status (updateEvent sampleEnv "owner" sampleId (sampleBody 5) db').2 = 200.
Proof.
  apply (updateEvent_twice sampleEnv "owner" sampleId (sampleBody 5) ghostDb).
  vm_compute. reflexivity.
Defined.

(** X7.  Fields of the patch that are missing, empty or zero are not
    applied: an update by the creator whose fields are all falsy is answered
    200 and changes nothing of the event but its time of update; an empty
    title does not clear the title. *)
Theorem updateEvent_falsy_patch env userId eventId b db event :
  events db !! eventId = Some event →
  Event.createdBy event = userId →
  truthy_opt (b_title b) = false →
  truthy_opt (b_description b) = false →
  truthy_opt (b_date b) = false →
  truthy_opt (b_time b) = false →
  truthy_num (b_capacity b) = false →
  status (updateEvent env userId eventId b db).2 = 200
  ∧ (updateEvent env userId eventId b db).1
    = set_events
        (insert eventId
           (Event.mk (Event.id event) (Event.title event)
              (Event.description event) (Event.date event) (Event.time event)
              (Event.capacity event) (Event.createdBy event)
              (Event.participants event) (Event.createdAt event)
              (Some (isoNow env)))) db.
Proof.
  intros Hev Hby Ht Hd Hdt Htm Hc.
  assert (capacity_refused b event = false) as Href.
  { unfold capacity_refused. destruct (b_capacity b) as [c|]; [|done].
    cbn [truthy_num] in Hc. by rewrite Hc. }
  destruct (updateEvent_accepted env userId eventId b db event)
    as (response & Hupd & Hst); [done..|].
  rewrite Hupd. split; [done|]. cbn [fst]. do 2 f_equal.
  unfold updatedEvent, js_or, js_or_num.
  destruct (b_title b) as [t|], (b_description b) as [d|], (b_date b) as [dt|],
    (b_time b) as [tm|], (b_capacity b) as [c|];
    cbn [truthy_opt truthy_num] in *;
    rewrite ?Ht, ?Hd, ?Hdt, ?Htm;
    try (apply negb_false_iff in Hc; rewrite Hc); done.
Qed.

Lemma updateEvent_falsy_patch_witness :
  let b := mkEventBody (Some "") None None (Some "") (Some 0%Z) in
  let event := sampleEvent 3 {[aliceId; "ghost"]} in
  status (updateEvent sampleEnv "owner" sampleId b ghostDb).2 = 200
  ∧ (updateEvent sampleEnv "owner" sampleId b ghostDb).1
    = set_events
        (insert sampleId
           (Event.mk (Event.id event) (Event.title event)
              (Event.description event) (Event.date event) (Event.time event)
              (Event.capacity event) (Event.createdBy event)
              (Event.participants event) (Event.createdAt event)
              (Some (isoNow sampleEnv)))) ghostDb.
Proof.
  intros b event.
  apply (updateEvent_falsy_patch sampleEnv "owner" sampleId b ghostDb event);
    vm_compute; reflexivity.
Defined.

(** ** Deleting an event *)

Lemma deleteEvent_200_inv env userId eventId db :
  status (deleteEvent env userId eventId db).2 = 200 →
  ∃ event,
    events db !! eventId = Some event
    ∧ Event.createdBy event = userId
    ∧ deleteEvent env userId eventId db
      = (mkDb (users db) (delete eventId (events db))
           (unregisterAll eventId (elements (Event.participants event))
              (userEvents db)),
         mkResponse 200
           (EventDeleted "Event deleted successfully" eventId (Event.title event)
              (size (Event.participants event)))).
Proof.
  unfold deleteEvent. destruct (events db !! eventId) as [event|]; [|discriminate].
  destruct (String.eqb_spec (Event.createdBy event) userId) as [Hby|];
    [|discriminate]. cbn [negb].
  rewrite mapM_cancellationNotice.
  destruct (if (0 <? _)%nat then _ else _); [|discriminate].
  intros _. by exists event.
Qed.

(** X8.  A deletion answered 200 removes the one event and reports the
    number of its participants; it takes the event out of the set of
    registered events of each participant and leaves those sets otherwise
    as they were, as well as the sets of all other users, the user records
    and every other event. *)
Theorem deleteEvent_frame env userId eventId db :
  status (deleteEvent env userId eventId db).2 = 200 →
  let db' := (deleteEvent env userId eventId db).1 in
  ∃ event,
    events db !! eventId = Some event
    ∧ body (deleteEvent env userId eventId db).2
      = EventDeleted "Event deleted successfully" eventId (Event.title event)
          (size (Event.participants event))
    ∧ users db' = users db
    ∧ events db' = delete eventId (events db)
    ∧ ∀ u, userEvents db' !! u
           = if decide (u ∈ Event.participants event)
             then (λ s, s ∖ {[eventId]}) <$> userEvents db !! u
             else userEvents db !! u.
Proof.
  intros (event & Hev & _ & Hdel)%deleteEvent_200_inv db'.
  subst db'. rewrite Hdel. exists event. cbn [fst snd body users events userEvents].
  split_and!; try done.
  intros u. rewrite unregisterAll_lookup.
  destruct (decide (u ∈ elements (Event.participants event))) as [Hin|Hnin];
    destruct (decide (u ∈ Event.participants event)) as [Hin'|Hnin']; try done.
  - by apply elem_of_elements in Hin.
  - by apply elem_of_elements in Hin'.
Qed.

Lemma deleteEvent_frame_witness :
  let db := mkDb [] {[sampleId := sampleEvent 2 ∅]} {["u2" := {["other"]}]} in
  let db' := (deleteEvent sampleEnv "owner" sampleId db).1 in
  ∃ event,
    events db !! sampleId = Some event
    ∧ body (deleteEvent sampleEnv "owner" sampleId db).2
      = EventDeleted "Event deleted successfully" sampleId (Event.title event)
          (size (Event.participants event))
    ∧ users db' = users db
    ∧ events db' = delete sampleId (events db)
    ∧ ∀ u, userEvents db' !! u
           = if decide (u ∈ Event.participants event)
             then (λ s, s ∖ {[sampleId]}) <$> userEvents db !! u
             else userEvents db !! u.
Proof.
  intros db.
  apply (deleteEvent_frame sampleEnv "owner" sampleId db).
  vm_compute. reflexivity.
Defined.

(** X9.  Once a deletion has been answered 200 the id is unknown: an update,
    another deletion and a registration for it are all answered 404 and
    change nothing. *)
Theorem deleted_event_is_unknown env userId eventId db env' u b :
  status (deleteEvent env userId eventId db).2 = 200 →
  let db' := (deleteEvent env userId eventId db).1 in
  updateEvent env' u eventId b db' = (db', mkResponse 404 (Error "Event not found"))
  ∧ deleteEvent env' u eventId db' = (db', mkResponse 404 (Error "Event not found"))
  ∧ register env' u eventId db' = (db', mkResponse 404 (Error "Event not found")).
Proof.
  intros (event & _ & _ & Hdel)%deleteEvent_200_inv db'.
  assert (events db' !! eventId = None) as Hnone.
  { subst db'. rewrite Hdel. cbn [fst events]. apply lookup_delete_eq. }
  unfold updateEvent, deleteEvent, register, register_begin.
  by rewrite Hnone.
Qed.

Lemma deleted_event_is_unknown_witness :
  let db := mkDb [] {[sampleId := sampleEvent 2 ∅]} ∅ in
  let db' := (deleteEvent sampleEnv "owner" sampleId db).1 in
  updateEvent sampleEnv "owner" sampleId (sampleBody 5) db'
  = (db', mkResponse 404 (Error "Event not found"))
  ∧ deleteEvent sampleEnv "owner" sampleId db'
    = (db', mkResponse 404 (Error "Event not found"))
  ∧ register sampleEnv "owner" sampleId db'
    = (db', mkResponse 404 (Error "Event not found")).
Proof.
  intros db.
  apply (deleted_event_is_unknown sampleEnv "owner" sampleId db sampleEnv "owner"
           (sampleBody 5)).
  vm_compute. reflexivity.
Defined.

(** ** Bulk mail *)

(** X10.  [sendBulkEmails] resolves exactly when every recipient is defined,
    whatever the transport does with the mails; with an undefined recipient
    it rejects with [Failed to send some notifications]. *)
Theorem sendBulkEmails_resolves_iff env ns :
  (sendBulkEmails env ns = Return tt ↔ Forall is_Some ns)
  ∧ (sendBulkEmails env ns = Throw "Failed to send some notifications"
     ↔ None ∈ ns).
Proof.
  destruct (decide (Forall is_Some ns)) as [Hall|Hnall].
  - rewrite sendBulkEmails_all_defined by done. split; split; try done.
    intros Hin. rewrite Forall_forall in Hall. by destruct (Hall None Hin).
  - assert (None ∈ ns) as Hin.
    { apply not_Forall_Exists in Hnall; [|apply _].
      apply Exists_exists in Hnall as ([n|] & Hn & Hnot); [|done].
      destruct Hnot. by eexists. }
    rewrite sendBulkEmails_undefined by done. split; split; done.
Qed.

(** ** Events and their ids *)

Lemma handle_ids env r db :
  (∀ e ev, events db !! e = Some ev → Event.id ev = e) →
  ∀ e ev, events (handle env r db).1 !! e = Some ev → Event.id ev = e.
Proof.
  intros Hdb. destruct r as [u b|u e0 b|u e0|u e0|b]; cbn [handle].
  - unfold createEvent. destruct (negb (truthy u)); [done|].
    destruct (_ || _); [done|]. intros e ev. cbn [fst set_events events].
    rewrite lookup_insert. case_decide; [|apply Hdb].
    by intros [= <-].
  - unfold updateEvent. destruct (events db !! e0) as [event|] eqn:Hev; [|done].
    destruct (negb _); [done|]. destruct (capacity_refused b event); [done|].
    rewrite notifyParticipants_returns. intros e ev. cbn [fst set_events events].
    rewrite lookup_insert. case_decide; [|apply Hdb].
    intros [= <-]. cbn [updatedEvent Event.id]. subst e. by apply Hdb.
  - unfold deleteEvent. destruct (events db !! e0) as [event|] eqn:Hev; [|done].
    destruct (negb _); [done|]. rewrite mapM_cancellationNotice.
    destruct (if (0 <? _)%nat then _ else _); cbn [fst set_userEvents events];
      [|done].
    intros e ev. cbn [set_events events]. rewrite lookup_delete.
    case_decide; [done|apply Hdb].
  - destruct (register_inv env u e0 db)
      as [(event & Hev & Hlt & Hnot)|[-> _]]; [|done].
    rewrite register_store, (register_begin_commits _ _ _ event) by done.
    intros e ev. cbn [events]. rewrite lookup_insert. case_decide; [|apply Hdb].
    intros [= <-]. cbn [Event.add_participant Event.id]. subst e. by apply Hdb.
  - unfold registerUser. destruct (users_has _ _); [done|].
    by destruct (sendEmail _ _).
Qed.

Lemma run_ids rs db :
  (∀ e ev, events db !! e = Some ev → Event.id ev = e) →
  ∀ e ev, events (run rs db) !! e = Some ev → Event.id ev = e.
Proof.
  revert db. induction rs as [|[env r] rs IH]; intros db Hdb; [done|].
  cbn [run foldl]. apply IH. by apply handle_ids.
Qed.

(** X11.  In every store reached from the empty store each event is stored
    under its own id, so the id in the path of a request and the id that the
    responses report are the same. *)
Theorem reachable_ids rs e ev :
  events (run rs emptyDb) !! e = Some ev → Event.id ev = e.
Proof.
  apply run_ids. intros e' ev'. cbn [emptyDb events]. by rewrite lookup_empty.
Qed.

Lemma reachable_ids_witness :
  Event.id (sampleEvent 2 {["u2"]}) = sampleId.
Proof.
  apply (reachable_ids [(sampleEnv, CreateEvent "owner" (sampleBody 2));
                        (sampleEnv, Register "u2" sampleId)]).
  vm_compute. reflexivity.
Defined.

(** ** The events of a user *)

Lemma mapM_summary_resolved db (ids : list string) :
  (∀ e, e ∈ ids → is_Some (events db !! e)) →
  ∃ l,
    mapM (λ eventId,
            match events db !! eventId with
            | Some event => Return (summary event)
            | None => Throw "Cannot read properties of undefined (reading 'id')"
            end) ids = Return l
    ∧ length l = length ids
    ∧ ∀ sm, sm ∈ l ↔ ∃ e ev, e ∈ ids ∧ events db !! e = Some ev ∧ sm = summary ev.
Proof.
  induction ids as [|e ids IH]; intros Hall.
  - exists []. split_and!; [done..|]. intros sm. split.
    + by intros ?%elem_of_nil.
    + by intros (? & ? & ?%elem_of_nil & _).
  - destruct IH as (l & Hl & Hlen & Hmem).
    { intros e' He'. apply Hall, elem_of_cons. by right. }
    destruct (Hall e) as [ev Hev]; [apply elem_of_cons; by left|].
    exists (summary ev :: l). cbn [mapM]. rewrite Hev, Hl. cbn [bind].
    split_and!; [done | by cbn [length]; rewrite Hlen|].
    intros sm. rewrite elem_of_cons, Hmem. split.
    + intros [->|(e' & ev' & He' & Hev' & ->)].
      * exists e, ev. split_and!; [apply elem_of_cons; by left | done..].
      * exists e', ev'. split_and!; [apply elem_of_cons; by right | done..].
    + intros (e' & ev' & [->|He']%elem_of_cons & Hev' & ->).
      * left. congruence.
      * right. by exists e', ev'.
Qed.

Lemma mapM_summary_dangling db (ids : list string) e :
  e ∈ ids → events db !! e = None →
  ∃ m,
    mapM (λ eventId,
            match events db !! eventId with
            | Some event => Return (summary event)
            | None => Throw "Cannot read properties of undefined (reading 'id')"
            end) ids = Throw m.
Proof.
  intros Hin Hnone. induction ids as [|e' ids IH]; [by apply elem_of_nil in Hin|].
  cbn [mapM]. destruct (events db !! e') as [ev|] eqn:Hev; [|by eexists].
  apply elem_of_cons in Hin as [->|Hin]; [congruence|].
  destruct (IH Hin) as [m ->]. by eexists.
Qed.

Lemma run_keeps_consistent rs db :
  consistent db → admissible_run rs db → consistent (run rs db).
Proof.
  revert db. induction rs as [|[env r] rs IH]; intros db Hdb Hadm; [done|].
  destruct Hadm as [Hadm Hrest]. cbn [run foldl fst snd] in *.
  apply IH; [by apply handle_consistent | done].
Defined.

Lemma ghostDb_consistent : consistent ghostDb.
Proof.
  apply run_keeps_consistent; [apply consistent_empty|].
  repeat split; vm_compute; reflexivity.
Defined.

(** X12.  On a consistent store a user who has a set of registered events is
    answered 200 with one summary for each event of the set, and the events
    summarised are exactly the stored events that have the user as
    participant. *)
Theorem getUserEvents_lists userId db s :
  consistent db →
  userEvents db !! userId = Some s →
  ∃ l,
    getUserEvents userId db = Json 200 l
    ∧ length l = size s
    ∧ ∀ sm, sm ∈ l ↔ ∃ e ev, events db !! e = Some ev
                             ∧ userId ∈ Event.participants ev
                             ∧ sm = summary ev.
Proof.
  intros Hcons Hs. unfold getUserEvents. rewrite Hs. cbn [bind].
  destruct (mapM_summary_resolved db (elements s)) as (l & -> & Hlen & Hmem).
  { intros e He%elem_of_elements.
    destruct (proj2 (Hcons userId e)) as (ev & Hev & _); [by eauto | by eexists]. }
  exists l. split_and!; [done..|].
  intros sm. rewrite Hmem. split.
  - intros (e & ev & He%elem_of_elements & Hev & ->). exists e, ev.
    split_and!; [done| |done].
    destruct (proj2 (Hcons userId e)) as (ev' & Hev' & Hin); [by eauto|].
    congruence.
  - intros (e & ev & Hev & Hin & ->). exists e, ev. split_and!; [|done..].
    apply elem_of_elements.
    destruct (proj1 (Hcons userId e)) as (s' & Hs' & He); [by eauto|].
    congruence.
Qed.

Lemma getUserEvents_lists_witness :
  ∃ l,
    getUserEvents "ghost" ghostDb = Json 200 l
    ∧ length l = size ({[sampleId]} : gset string)
    ∧ ∀ sm, sm ∈ l ↔ ∃ e ev, events ghostDb !! e = Some ev
                             ∧ "ghost" ∈ Event.participants ev
                             ∧ sm = summary ev.
Proof.
  apply (getUserEvents_lists "ghost" ghostDb {[sampleId]}).
  - apply ghostDb_consistent.
  - vm_compute. reflexivity.
Defined.

(** X13.  The route answers 500 exactly in two cases: the caller has no set
    of registered events at all (a caller who never registered for an event
    and has no account in this store), or the caller's set lists an id that
    is not in the event store. *)
Theorem getUserEvents_fails_iff userId db :
  getUserEvents userId db = Failed 500 "Error fetching user events"
  ↔ userEvents db !! userId = None
    ∨ ∃ s e, userEvents db !! userId = Some s ∧ e ∈ s ∧ events db !! e = None.
Proof.
  unfold getUserEvents.
  destruct (userEvents db !! userId) as [s|] eqn:Hs; cbn [bind];
    [|split; [by left | done]].
  split.
  - intros Hfail. right. exists s.
    destruct (decide (Forall (λ e, is_Some (events db !! e)) (elements s)))
      as [Hall|Hnall].
    + rewrite Forall_forall in Hall.
      destruct (mapM_summary_resolved db (elements s) Hall) as (l & Hl & _).
      rewrite Hl in Hfail. discriminate.
    + apply not_Forall_Exists in Hnall; [|apply _].
      apply Exists_exists in Hnall as (e & Hin & He). exists e.
      split_and!; [done | by apply elem_of_elements|].
      destruct (events db !! e) eqn:Hev; [|done]. destruct He. by eexists.
  - intros [?|(s' & e & [= <-] & He & Hnone)]; [done|].
    destruct (mapM_summary_dangling db (elements s) e) as [m ->];
      [by apply elem_of_elements | done | done].
Qed.

(** X14.  On a consistent store, a registration that gets through (answered
    200, or 500 when only the confirmation mail failed) shows at once in the
    caller's list of events. *)
Theorem register_then_listed env userId eventId db :
  consistent db →
  status (register env userId eventId db).2 = 200
  ∨ status (register env userId eventId db).2 = 500 →
  ∃ l ev,
    getUserEvents userId (register env userId eventId db).1 = Json 200 l
    ∧ events (register env userId eventId db).1 !! eventId = Some ev
    ∧ userId ∈ Event.participants ev
    ∧ summary ev ∈ l.
Proof.
  intros Hcons Hst.
  destruct (register_inv env userId eventId db)
    as [(event & Hev & Hlt & Hnot)|[_ [H|H]]];
    [|rewrite H in Hst; by destruct Hst..].
  pose proof (register_consistent env userId eventId db Hcons) as Hcons'.
  assert (events (register env userId eventId db).1 !! eventId
          = Some (Event.add_participant userId event)) as Hev'.
  { rewrite register_store, (register_begin_commits _ _ _ event) by done.
    cbn [events]. apply lookup_insert_eq. }
  assert (userId ∈ Event.participants (Event.add_participant userId event)) as Hin.
  { cbn [Event.add_participant Event.participants]. set_solver. }
  destruct (proj1 (Hcons' userId eventId)) as (s & Hs & _); [by eauto|].
  destruct (getUserEvents_lists _ _ _ Hcons' Hs) as (l & Hl & _ & Hmem).
  exists l, (Event.add_participant userId event).
  split_and!; [done..|]. apply Hmem. by exists eventId, (Event.add_participant userId event).
Qed.

Lemma register_then_listed_witness :
  let db := mkDb [] {[sampleId := sampleEvent 2 ∅]} ∅ in
  ∃ l ev,
    getUserEvents "u2" (register sampleEnv "u2" sampleId db).1 = Json 200 l
    ∧ events (register sampleEnv "u2" sampleId db).1 !! sampleId = Some ev
    ∧ "u2" ∈ Event.participants ev
    ∧ summary ev ∈ l.
Proof.
  intros db.
  apply (register_then_listed sampleEnv "u2" sampleId db).
  - intros u e. split.
    + intros (ev & Hev & Hin). exfalso.
      destruct (decide (e = sampleId)) as [->|Hne].
      * vm_compute in Hev. injection Hev as <-. vm_compute in Hin. discriminate.
      * unfold db in Hev. cbn [events] in Hev.
        by rewrite lookup_singleton_ne in Hev.
    + intros (s & Hs & _). unfold db in Hs. cbn [userEvents] in Hs.
      by rewrite lookup_empty in Hs.
  - left. vm_compute. reflexivity.
Defined.

(** X15.  After a deletion answered 200 on a consistent store no user's list
    of events shows the deleted event: every user with a set of registered
    events is answered 200 and every summary listed is that of an event
    stored under another id. *)
Theorem delete_then_not_listed env userId eventId db u s :
  consistent db →
  status (deleteEvent env userId eventId db).2 = 200 →
  userEvents (deleteEvent env userId eventId db).1 !! u = Some s →
  (eventId ∉ s)
  ∧ ∃ l,
      getUserEvents u (deleteEvent env userId eventId db).1 = Json 200 l
      ∧ ∀ sm, sm ∈ l → ∃ e ev, e ≠ eventId ∧ events db !! e = Some ev
                               ∧ sm = summary ev.
Proof.
  intros Hcons Hst Hs.
  destruct (deleteEvent_cleans env userId eventId db Hcons Hst) as [Hgone Hclean].
  split; [by eapply Hclean|].
  assert (consistent (deleteEvent env userId eventId db).1) as Hcons'.
  { apply deleteEvent_consistent; [done|]. rewrite Hst. discriminate. }
  destruct (getUserEvents_lists _ _ _ Hcons' Hs) as (l & Hl & _ & Hmem).
  exists l. split; [done|]. intros sm (e & ev & Hev & _ & ->)%Hmem.
  destruct (deleteEvent_frame env userId eventId db Hst) as (_ & _ & _ & _ & Hevs & _).
  rewrite Hevs in Hev. exists e, ev.
  destruct (decide (e = eventId)) as [->|Hne].
  - by rewrite lookup_delete_eq in Hev.
  - by rewrite lookup_delete_ne in Hev.
Qed.

Lemma delete_then_not_listed_witness :
  let db := run [(aliceEnv, RegisterUser aliceBody);
                 (sampleEnv, CreateEvent "owner" (sampleBody 3));
                 (sampleEnv, Register aliceId sampleId)] emptyDb in
  (sampleId ∉ (∅ : gset string))
  ∧ ∃ l,
      getUserEvents aliceId (deleteEvent noMailEnv "owner" sampleId db).1 = Json 200 l
      ∧ ∀ sm, sm ∈ l → ∃ e ev, e ≠ sampleId ∧ events db !! e = Some ev
                               ∧ sm = summary ev.
Proof.
  intros db.
  apply (delete_then_not_listed noMailEnv "owner" sampleId db aliceId ∅).
  - apply run_keeps_consistent; [apply consistent_empty|].
    repeat split; vm_compute; reflexivity.
  - vm_compute. reflexivity.
  - vm_compute. reflexivity.
Defined.

(** ** User records *)

Lemma handle_users env r db :
  users (handle env r db).1 = users db
  ∨ ∃ b, r = RegisterUser b
         ∧ users_has (b_email b) db = false
         ∧ users (handle env r db).1
           = users db ++
             [User.mk (b_email b) (hash env (b_password b)) (b_name b)
                (default "attendee" (b_role b)) (pretty (now env))
                (Profile.mk (b_name b) "" [] (isoNow env) 0 0)].
Proof.
  destruct r as [u b|u e b|u e|u e|b]; cbn [handle].
  - left. unfold createEvent. destruct (negb (truthy u)); [done|].
    by destruct (_ || _).
  - left. unfold updateEvent. destruct (events db !! e) as [event|]; [|done].
    destruct (negb _); [done|]. destruct (capacity_refused b event); [done|].
    by rewrite notifyParticipants_returns.
  - left. unfold deleteEvent. destruct (events db !! e) as [event|]; [|done].
    destruct (negb _); [done|]. rewrite mapM_cancellationNotice.
    by destruct (if (0 <? _)%nat then _ else _).
  - left. destruct (register_inv env u e db)
      as [(event & Hev & Hlt & Hnot)|[-> _]]; [|done].
    by rewrite register_store, (register_begin_commits _ _ _ event).
  - unfold registerUser. destruct (users_has (b_email b) db) eqn:Hhas; [by left|].
    right. exists b. split_and!; [done..|]. by destruct (sendEmail _ _).
Qed.

Lemma users_has_false email db :
  users_has email db = false → email ∉ User.email <$> users db.
Proof.
  unfold users_has. intros Hhas (u & -> & Hu)%list_elem_of_fmap.
  assert (existsb (λ u0, (User.email u0 =? User.email u)%string) (users db) = true)
    as Htrue; [|congruence].
  apply existsb_exists. exists u. split; [by apply list_elem_of_In|].
  apply String.eqb_refl.
Qed.

(** X16.  In every store reached from the empty store no two user records
    have the same e-mail address, which is what keying [db.users] by e-mail
    amounts to. *)
Theorem reachable_emails_unique rs :
  NoDup (User.email <$> users (run rs emptyDb)).
Proof.
  assert (∀ db, NoDup (User.email <$> users db) →
                NoDup (User.email <$> users (run rs db))) as H.
  { induction rs as [|[env r] rs IH]; intros db Hdb; [done|].
    cbn [run foldl fst snd]. apply IH.
    destruct (handle_users env r db) as [->|(b & _ & Hhas & ->)]; [done|].
    rewrite fmap_app. apply NoDup_app. split_and!; [done| |].
    - intros email Hin [->|[]%elem_of_nil]%elem_of_cons.
      by apply (users_has_false _ _ Hhas).
    - apply NoDup_singleton. }
  apply H. cbn [emptyDb users fmap list_fmap]. apply NoDup_nil_2.
Qed.

Lemma run_counters rs db :
  (∀ user, user ∈ users db →
     Profile.eventsOrganized (User.profile user) = 0%Z
     ∧ Profile.eventsAttended (User.profile user) = 0%Z) →
  ∀ user, user ∈ users (run rs db) →
    Profile.eventsOrganized (User.profile user) = 0%Z
    ∧ Profile.eventsAttended (User.profile user) = 0%Z.
Proof.
  revert db. induction rs as [|[env r] rs IH]; intros db Hdb; [done|].
  cbn [run foldl fst snd]. apply IH.
  destruct (handle_users env r db) as [->|(b & _ & _ & ->)]; [done|].
  intros user [Hin|[->|[]%elem_of_nil]%elem_of_cons]%elem_of_app; [by apply Hdb|].
  done.
Qed.

Lemma find_user_elem userId db user :
  find_user userId db = Some user → user ∈ users db ∧ User.id user = userId.
Proof.
  unfold find_user. intros [Hin Heq]%find_some. split.
  - by apply list_elem_of_In.
  - by apply String.eqb_eq.
Qed.

(** X17.  The counters of a profile are never incremented: in every store
    reached from the empty store by creations, updates, deletions and
    registrations, the profile route reports 0 events organised and 0 events
    attended for every user. *)
Theorem profile_counters_stay_zero rs userId pv :
  getProfile userId (run rs emptyDb) = Json 200 pv →
  pv_eventsOrganized pv = 0%Z ∧ pv_eventsAttended pv = 0%Z.
Proof.
  unfold getProfile.
  destruct (find_user userId (run rs emptyDb)) as [user|] eqn:Hu; [|discriminate].
  intros [= <-]. cbn [pv_eventsOrganized pv_eventsAttended].
  apply find_user_elem in Hu as [Hin _].
  apply (run_counters rs emptyDb); [|done].
  by intros u ?%elem_of_nil.
Qed.

Lemma profile_counters_stay_zero_witness :
  pv_eventsOrganized
    (mkProfileView "Alice" "" [] "attendee" 0 0 "2023-07-22T04:26:40.000Z") = 0%Z
  ∧ pv_eventsAttended
      (mkProfileView "Alice" "" [] "attendee" 0 0 "2023-07-22T04:26:40.000Z") = 0%Z.
Proof.
  apply (profile_counters_stay_zero
           [(aliceEnv, RegisterUser aliceBody);
            (aliceEnv, CreateEvent aliceId (sampleBody 3));
            (sampleEnv, Register aliceId aliceId)] aliceId).
  vm_compute. reflexivity.
Defined.

Lemma find_app_None {A} (f : A → bool) l l' :
  find f l = None → find f (l ++ l') = find f l'.
Proof.
  induction l as [|x l IH]; [done|]. cbn [find app].
  destruct (f x); [discriminate | exact IH].
Qed.

Lemma find_app_Some {A} (f : A → bool) l l' x :
  find f l = Some x → find f (l ++ l') = Some x.
Proof.
  induction l as [|y l IH]; [discriminate|]. cbn [find app].
  destruct (f y); [done | exact IH].
Qed.

Lemma users_has_get email db :
  users_has email db = false → users_get email db = None.
Proof.
  unfold users_has, users_get. induction (users db) as [|u us IH]; [done|].
  cbn [existsb find]. destruct (User.email u =? email)%string; [discriminate|].
  exact IH.
Qed.

(** X18.  A user whose e-mail address was free can log in as soon as the
    registration has run, also when the registration itself was answered 500
    because the welcome mail could not be sent: with the password that was
    registered, the login is answered 200 with a token signed for the new id
    and the address. *)
Theorem registerUser_then_login env crypto b db :
  users_has (b_email b) db = false →
  compare crypto (b_password b) (hash env (b_password b)) = true →
  login crypto (b_email b) (b_password b) (registerUser env b db).1
  = Json 200 (sign crypto (mkPayload (pretty (now env)) (b_email b))).
Proof.
  intros Hfree Hcmp. unfold registerUser. rewrite Hfree.
  assert (∀ (db1 : InMemoryDb) (r1 r2 : Response),
            (match sendEmail env (b_email b) with
             | Throw _ => (db1, r1) | Return _ => (db1, r2) end).1 = db1) as Hfst.
  { intros db1 r1 r2. by destruct (sendEmail env (b_email b)). }
  rewrite Hfst. unfold login, users_get. cbn [users].
  rewrite find_app_None by (by apply users_has_get).
  cbn [find User.email]. rewrite String.eqb_refl.
  cbn [User.password User.id User.email]. by rewrite Hcmp.
Qed.

Lemma registerUser_then_login_witness :
  let crypto := mkCrypto String.eqb (λ p, p_id p) (λ _, None) in
  login crypto (b_email aliceBody) (b_password aliceBody)
    (registerUser noMailEnv aliceBody emptyDb).1
  = Json 200 (sign crypto (mkPayload (pretty (now noMailEnv)) (b_email aliceBody))).
Proof.
  intros crypto.
  apply (registerUser_then_login noMailEnv crypto aliceBody emptyDb);
    vm_compute; reflexivity.
Defined.

(** X19.  A registration never changes what an id that is already in use
    resolves to: the profile shown for such an id is that of the first user
    that got it, so a newcomer whose id collides with it is shown that
    user's profile.  For an id that is not in use, the newcomer is shown the
    profile just created, with the role [attendee] unless one was given,
    and an empty list of events. *)
Theorem registerUser_profiles env b db userId :
  users_has (b_email b) db = false →
  let db' := (registerUser env b db).1 in
  (is_Some (find_user userId db) → getProfile userId db' = getProfile userId db)
  ∧ (find_user (pretty (now env)) db = None →
     getProfile (pretty (now env)) db'
     = Json 200 (mkProfileView (b_name b) "" [] (default "attendee" (b_role b))
                   0 0 (isoNow env))
     ∧ getUserEvents (pretty (now env)) db' = Json 200 []).
Proof.
  intros Hfree db'.
  assert (db' = mkDb (users db ++
                        [User.mk (b_email b) (hash env (b_password b)) (b_name b)
                           (default "attendee" (b_role b)) (pretty (now env))
                           (Profile.mk (b_name b) "" [] (isoNow env) 0 0)])
                  (events db) (<[pretty (now env) := ∅]> (userEvents db))) as ->.
  { subst db'. unfold registerUser. rewrite Hfree.
    by destruct (sendEmail env (b_email b)). }
  split.
  - intros [user Hu]. unfold getProfile, find_user in *. cbn [users].
    by rewrite (find_app_Some _ _ _ _ Hu), Hu.
  - intros Hnew. split.
    + unfold getProfile, find_user in *. cbn [users].
      rewrite find_app_None by done. cbn [find User.id].
      by rewrite String.eqb_refl.
    + unfold getUserEvents. cbn [userEvents User.id].
      rewrite lookup_insert_eq. cbn [bind]. by rewrite elements_empty.
Qed.

Lemma registerUser_profiles_witness :
  let db' := (registerUser aliceEnv aliceBody emptyDb).1 in
  (is_Some (find_user "u2" emptyDb) → getProfile "u2" db' = getProfile "u2" emptyDb)
  ∧ (find_user (pretty (now aliceEnv)) emptyDb = None →
     getProfile (pretty (now aliceEnv)) db'
     = Json 200 (mkProfileView (b_name aliceBody) "" []
                   (default "attendee" (b_role aliceBody)) 0 0 (isoNow aliceEnv))
     ∧ getUserEvents (pretty (now aliceEnv)) db' = Json 200 []).
Proof.
  apply (registerUser_profiles aliceEnv aliceBody emptyDb "u2").
  vm_compute. reflexivity.
Defined.

(** ** Tokens *)

Lemma split_not_nil sep s : split sep s ≠ [].
Proof. destruct s as [|c s]; [done|]. cbn [split]. destruct (Ascii.eqb c sep); [done|]. by destruct (split sep s). Qed.

(** A word without the separator, followed by the separator, is the first
    piece. *)
Lemma split_app sep w r :
  split sep w = [w] →
  split sep (w +:+ String sep r) = w :: split sep r.
Proof.
  induction w as [|c w IH]; intros Hw.
  - simpl. by rewrite Ascii.eqb_refl.
  - simpl in *.
    destruct (Ascii.eqb c sep).
    + injection Hw as _ Hnil. by destruct (split_not_nil sep w).
    + destruct (split sep w) as [|piece pieces] eqn:Hsplit;
        [by destruct (split_not_nil sep w)|].
      injection Hw as -> ->. by rewrite IH.
Qed.

Lemma append_truthy w c r : truthy (w +:+ String c r) = true.
Proof. by destruct w. Qed.

Lemma bearerToken_scheme w t :
  split " " w = [w] →
  bearerToken (Some (w +:+ String " " t)) = head (split " " t).
Proof.
  intros Hw. unfold bearerToken. rewrite append_truthy, split_app by done.
  cbn [lookup list_lookup]. by destruct (split " " t).
Qed.

(** X20.  The middleware does not look at the scheme of the [Authorization]
    header: with any first word in the place of [Bearer], the empty word
    included, a header is treated exactly as the same header with
    [Bearer]. *)
Theorem authenticateToken_ignores_scheme crypto w t :
  split " " w = [w] →
  authenticateToken crypto (Some (w +:+ String " " t))
  = authenticateToken crypto (Some ("Bearer" +:+ String " " t)).
Proof.
  intros Hw. unfold authenticateToken.
  by rewrite (bearerToken_scheme w), (bearerToken_scheme "Bearer").
Qed.

Lemma authenticateToken_ignores_scheme_witness :
  authenticateToken (mkCrypto String.eqb (λ p, p_id p)
                       (λ t, Some (mkPayload t "alice@example.org")))
    (Some ("Basic" +:+ String " " "abc"))
  = authenticateToken (mkCrypto String.eqb (λ p, p_id p)
                         (λ t, Some (mkPayload t "alice@example.org")))
      (Some ("Bearer" +:+ String " " "abc")).
Proof.
  apply (authenticateToken_ignores_scheme
           (mkCrypto String.eqb (λ p, p_id p)
              (λ t, Some (mkPayload t "alice@example.org"))) "Basic" "abc").
  reflexivity.
Defined.

(** X21.  A request without an [Authorization] header, or with a header
    that contains no space, is answered 401 and [jwt.verify] is not
    consulted: the answer does not depend on it. *)
Theorem authenticateToken_without_token crypto authorization :
  (∀ h, authorization = Some h → split " " h = [h]) →
  authenticateToken crypto authorization = Failed 401 "Authentication required".
Proof.
  intros Hh. unfold authenticateToken, bearerToken.
  destruct authorization as [h|]; [|done].
  rewrite (Hh h eq_refl). cbn [lookup list_lookup]. by destruct (truthy h).
Qed.

Lemma authenticateToken_without_token_witness :
  authenticateToken (mkCrypto String.eqb (λ p, p_id p)
                       (λ t, Some (mkPayload t "alice@example.org")))
    (Some "abc")
  = Failed 401 "Authentication required".
Proof.
  apply (authenticateToken_without_token
           (mkCrypto String.eqb (λ p, p_id p)
              (λ t, Some (mkPayload t "alice@example.org"))) (Some "abc")).
  intros h [= <-]. reflexivity.
Defined.

(** X22.  Logging in and presenting the token: when the password matches,
    the login is answered 200 with the token signed for the id and the
    address of the user; if that token is not empty, has no space and
    verifies to what was signed, the middleware lets a request with the
    header [Bearer <token>] through with the user's id and address. *)
Theorem login_then_authenticate crypto email password db user :
  users_get email db = Some user →
  compare crypto password (User.password user) = true →
  let p := mkPayload (User.id user) (User.email user) in
  let token := sign crypto p in
  verify crypto token = Some p →
  split " " token = [token] →
  truthy token = true →
  login crypto email password db = Json 200 token
  ∧ authenticateToken crypto (Some ("Bearer" +:+ String " " token)) = Json 200 p.
Proof.
  intros Hu Hcmp p token Hverify Hsplit Htruthy. split.
  - unfold login. by rewrite Hu, Hcmp.
  - unfold authenticateToken. rewrite (bearerToken_scheme "Bearer") by done.
    rewrite Hsplit. cbn [head]. by rewrite Htruthy, Hverify.
Qed.

Lemma login_then_authenticate_witness :
  let crypto := mkCrypto String.eqb (λ p, p_id p)
                  (λ t, Some (mkPayload t "alice@example.org")) in
  let db := (registerUser aliceEnv aliceBody emptyDb).1 in
  login crypto "alice@example.org" "secret" db = Json 200 aliceId
  ∧ authenticateToken crypto (Some ("Bearer" +:+ String " " aliceId))
    = Json 200 (mkPayload aliceId "alice@example.org").
Proof.
  intros crypto db.
  apply (login_then_authenticate crypto "alice@example.org" "secret" db
           (User.mk "alice@example.org" "secret" "Alice" "attendee" aliceId
              (Profile.mk "Alice" "" [] "2023-07-22T04:26:40.000Z" 0 0)));
    vm_compute; reflexivity.
Defined.

(** ** The list of events *)

Lemma sortInsert_Permutation {A} (cmp : A → A → Z) x l :
  sortInsert cmp x l ≡ₚ x :: l.
Proof.
  induction l as [|y l IH]; [done|]. cbn [sortInsert].
  destruct (cmp x y <=? 0)%Z; [done|].
  rewrite IH. apply Permutation_swap.
Qed.

Lemma sort_Permutation {A} (cmp : A → A → Z) l : sort cmp l ≡ₚ l.
Proof.
  unfold sort. induction l as [|x l IH]; [done|]. cbn [foldr].
  by rewrite sortInsert_Permutation, IH.
Qed.

Lemma filter_Permutation {A} (p : A → bool) l l' :
  l ≡ₚ l' → List.filter p l ≡ₚ List.filter p l'.
Proof.
  induction 1 as [|x l l' _ IH|x y l|l l' l'' _ IH1 _ IH2]; cbn [List.filter].
  - done.
  - destruct (p x); [by constructor | done].
  - destruct (p x), (p y); try done. apply Permutation_swap.
  - by etrans.
Qed.

Lemma filter_filter_andb {A} (p q : A → bool) l :
  List.filter q (List.filter p l) = List.filter (λ x, p x && q x) l.
Proof.
  induction l as [|x l IH]; [done|]. cbn [List.filter].
  destruct (p x); cbn [List.filter andb]; [|done].
  by destruct (q x); rewrite IH.
Qed.

Lemma filter_true {A} (l : list A) : List.filter (λ _, true) l = l.
Proof. induction l as [|x l IH]; [done|]. cbn [List.filter]. by rewrite IH. Qed.

(** X23.  The list that is sent holds, each as often as it occurs among the
    events of the store, exactly the views of the events that pass the
    filters in force; [total] is its length and the filters are echoed as
    received.  A filter that is missing or the empty string is not in
    force. *)
Theorem listEvents_lists loc viewer date query db eventList :
  let keep (v : EventListing) : bool :=
    match date with
    | Some d => if truthy d then onDate d v else true
    | None => true
    end
    && match query with
       | Some q => if truthy q then matchesQuery loc q v else true
       | None => true
       end in
  let response := listEvents loc viewer date query db eventList in
  listed response ≡ₚ List.filter keep (eventListing viewer db <$> eventList)
  ∧ total response = length (listed response)
  ∧ filter_date response = date
  ∧ filter_query response = query.
Proof.
  intros keep response. split_and!; [|done..].
  subst response keep. unfold listEvents. cbn [listed].
  set (views := eventListing viewer db <$> eventList).
  set (byDate := match date with
                 | Some d => if truthy d then List.filter (onDate d) _ else _
                 | None => _
                 end).
  assert (byDate
          = List.filter (λ v, match date with
                              | Some d => if truthy d then onDate d v else true
                              | None => true
                              end) (sort (compareDates loc) views)) as ->.
  { subst byDate. destruct date as [d|]; [destruct (truthy d)|];
      by rewrite ?filter_true. }
  set (byDate := List.filter _ (sort (compareDates loc) views)).
  assert (match query with
          | Some q => if truthy q then List.filter (matchesQuery loc q) byDate
                      else byDate
          | None => byDate
          end
          = List.filter (λ v, match query with
                              | Some q => if truthy q then matchesQuery loc q v
                                          else true
                              | None => true
                              end) byDate) as ->.
  { destruct query as [q|]; [destruct (truthy q)|]; by rewrite ?filter_true. }
  subst byDate. rewrite filter_filter_andb.
  apply filter_Permutation, sort_Permutation.
Qed.

(** X24.  Without filters the list has one view for each event of the
    store: [total] is the number of stored events and the views listed are
    those of the stored events. *)
Theorem listEvents_all loc viewer db eventList :
  eventList ≡ₚ (map_to_list (events db)).*2 →
  let response := listEvents loc viewer None None db eventList in
  total response = size (events db)
  ∧ ∀ v, v ∈ listed response
         ↔ ∃ e ev, events db !! e = Some ev ∧ v = eventListing viewer db ev.
Proof.
  intros Hperm response.
  destruct (listEvents_lists loc viewer None None db eventList)
    as (Hl & Htotal & _).
  fold response in Hl, Htotal. cbn [andb] in Hl. rewrite filter_true in Hl.
  split.
  - rewrite Htotal, Hl, length_fmap, Hperm, length_fmap.
    apply length_map_to_list.
  - intros v. rewrite Hl, list_elem_of_fmap. setoid_rewrite Hperm. split.
    + intros (ev & -> & ([e ev'] & -> & Hin%elem_of_map_to_list)%list_elem_of_fmap).
      by exists e, ev'.
    + intros (e & ev & Hev & ->). exists ev. split; [done|].
      apply list_elem_of_fmap. exists (e, ev). split; [done|].
      by apply elem_of_map_to_list.
Qed.

Lemma listEvents_all_witness :
  let response := listEvents (mkLocale (λ _, None) (λ s, s)) "u2" None None
                    ghostDb [sampleEvent 3 {[aliceId; "ghost"]}] in
  total response = size (events ghostDb)
  ∧ ∀ v, v ∈ listed response
         ↔ ∃ e ev, events ghostDb !! e = Some ev
                   ∧ v = eventListing "u2" ghostDb ev.
Proof.
  apply (listEvents_all (mkLocale (λ _, None) (λ s, s)) "u2" ghostDb
           [sampleEvent 3 {[aliceId; "ghost"]}]).
  vm_compute. reflexivity.
Defined.

Lemma sortInsert_sorted {A} (cmp : A → A → Z) (key : A → Z) x l :
  (∀ y, y ∈ l → cmp x y = (key x - key y)%Z) →
  StronglySorted (λ a b, (key a ≤ key b)%Z) l →
  StronglySorted (λ a b, (key a ≤ key b)%Z) (sortInsert cmp x l).
Proof.
  intros Hcmp Hsorted. induction Hsorted as [|y l Hsorted IH Hall].
  - repeat constructor.
  - cbn [sortInsert].
    pose proof (Hcmp y ltac:(apply elem_of_cons; by left)) as Hxy.
    destruct (Z.leb_spec (cmp x y) 0) as [Hle|Hgt].
    + constructor; [by constructor|].
      constructor; [lia|]. eapply Forall_impl; [exact Hall|].
      intros z Hz. cbn beta in *. lia.
    + constructor.
      * apply IH. intros z Hz. apply Hcmp, elem_of_cons. by right.
      * rewrite (sortInsert_Permutation cmp x l). constructor; [lia | done].
Qed.

Lemma sort_sorted {A} (cmp : A → A → Z) (key : A → Z) l :
  (∀ x y, x ∈ l → y ∈ l → cmp x y = (key x - key y)%Z) →
  StronglySorted (λ a b, (key a ≤ key b)%Z) (sort cmp l).
Proof.
  unfold sort. induction l as [|x l IH]; intros Hcmp; [constructor|].
  cbn [foldr]. apply sortInsert_sorted.
  - intros y Hy. apply Hcmp; [apply elem_of_cons; by left|].
    apply elem_of_cons. right.
    by rewrite <-(sort_Permutation cmp l).
  - apply IH. intros a b Ha Hb. apply Hcmp; apply elem_of_cons; by right.
Qed.

Lemma filter_sorted {A} (R : A → A → Prop) (p : A → bool) l :
  StronglySorted R l → StronglySorted R (List.filter p l).
Proof.
  induction 1 as [|x l Hsorted IH Hall]; [constructor|]. cbn [List.filter].
  destruct (p x); [|done]. constructor; [done|].
  apply Forall_forall. intros y Hy%list_elem_of_In%filter_In.
  rewrite Forall_forall in Hall. apply Hall, list_elem_of_In, Hy.
Qed.

Lemma sorted_lookup {A} (R : A → A → Prop) l i j a b :
  StronglySorted R l → l !! i = Some a → l !! j = Some b → i < j → R a b.
Proof.
  intros Hsorted. revert i j.
  induction Hsorted as [|x l Hsorted IH Hall]; intros i j Hi Hj Hlt;
    [by rewrite lookup_nil in Hi|].
  destruct i as [|i], j as [|j]; try lia; cbn [lookup list_lookup] in *.
  - injection Hi as <-. rewrite Forall_forall in Hall.
    apply Hall. by eapply list_elem_of_lookup_2.
  - apply (IH i j); [done..|lia].
Qed.

(** X25.  When the date of every event is a valid date, the list is in
    ascending order of date: of two views in the list, the earlier one has
    the earlier or the same date.  The filters do not change this. *)
Theorem listEvents_sorted loc viewer date query db eventList i j a b :
  (∀ ev, ev ∈ eventList → is_Some (dateValue loc (Event.date ev))) →
  listed (listEvents loc viewer date query db eventList) !! i = Some a →
  listed (listEvents loc viewer date query db eventList) !! j = Some b →
  i < j →
  ∃ x y, dateValue loc (l_date a) = Some x
         ∧ dateValue loc (l_date b) = Some y
         ∧ (x ≤ y)%Z.
Proof.
  intros Hvalid Hi Hj Hlt.
  set (key := λ v : EventListing, default 0%Z (dateValue loc (l_date v))).
  assert (∀ v, v ∈ eventListing viewer db <$> eventList →
               is_Some (dateValue loc (l_date v))) as Hviews.
  { intros v (ev & -> & Hev)%list_elem_of_fmap. by apply Hvalid. }
  assert (StronglySorted (λ a b, (key a ≤ key b)%Z)
            (listed (listEvents loc viewer date query db eventList))) as Hsorted.
  { unfold listEvents. cbn [listed].
    assert (StronglySorted (λ a b, (key a ≤ key b)%Z)
              (sort (compareDates loc) (eventListing viewer db <$> eventList)))
      as Hs.
    { apply sort_sorted. intros v w [x Hx]%Hviews [y Hy]%Hviews.
      unfold compareDates, key. by rewrite Hx, Hy. }
    destruct date as [d|]; [destruct (truthy d)|];
      (destruct query as [q|]; [destruct (truthy q)|]);
      repeat apply filter_sorted; exact Hs. }
  pose proof (sorted_lookup _ _ _ _ _ _ Hsorted Hi Hj Hlt) as Hab.
  destruct (listEvents_lists loc viewer date query db eventList) as (Hl & _).
  assert (∀ v k, listed (listEvents loc viewer date query db eventList) !! k = Some v →
                 is_Some (dateValue loc (l_date v))) as Hin.
  { intros v k Hk. apply Hviews.
    apply list_elem_of_lookup_2 in Hk. rewrite Hl in Hk.
    apply list_elem_of_In, filter_In in Hk as [Hk _]. by apply list_elem_of_In. }
  destruct (Hin a i Hi) as [x Hx], (Hin b j Hj) as [y Hy].
  exists x, y. split_and!; [done..|]. unfold key in Hab. by rewrite Hx, Hy in Hab.
Qed.

Lemma listEvents_sorted_witness :
  let loc := mkLocale (λ s, if String.eqb s "2024-01-01" then Some 1704067200000%Z
                            else Some 1717200000000%Z) (λ s, s) in
  let later := Event.mk "2" "Later" "" "2024-06-01" "10:00" 5 "owner" ∅ "" None in
  ∃ x y, dateValue loc (l_date (eventListing "u2" emptyDb (sampleEvent 2 ∅))) = Some x
         ∧ dateValue loc (l_date (eventListing "u2" emptyDb later)) = Some y
         ∧ (x ≤ y)%Z.
Proof.
  intros loc later.
  apply (listEvents_sorted loc "u2" None None emptyDb [later; sampleEvent 2 ∅] 0 1).
  - intros ev _. unfold loc. cbn [dateValue].
    destruct (String.eqb (Event.date ev) "2024-01-01"); by eexists.
  - vm_compute. reflexivity.
  - vm_compute. reflexivity.
  - lia.
Defined.





(** ** The in-memory log *)

Lemma logEvent_lookup {M} (userIdOf : M → option string) env lvl msg meta
    (logs : gmap string (list (LogEntry M))) u :
  userIdOf meta = Some u →
  truthy u = true →
  let entry := mkLogEntry (isoNow env) lvl msg meta in
  let l := default [] (logs !! u) ++ [entry] in
  (logEvent userIdOf env lvl msg meta logs).2 = entry
  ∧ (logEvent userIdOf env lvl msg meta logs).1 !! u
    = Some (if (1000 <? length l)%nat then sliceLast 1000 l else l)
  ∧ ∀ u', u' ≠ u →
      (logEvent userIdOf env lvl msg meta logs).1 !! u' = logs !! u'.
Proof.
  intros Hu Htruthy entry l. unfold logEvent. rewrite Hu, Htruthy.
  fold entry.
  assert (default [] ((if bool_decide (is_Some (logs !! u)) then logs
                       else <[u := []]> logs) !! u) = default [] (logs !! u))
    as Hdef.
  { case_bool_decide as Hsome; [done|].
    apply eq_None_not_Some in Hsome. by rewrite lookup_insert_eq, Hsome. }
  rewrite Hdef, lookup_insert_eq. cbn [from_option]. fold l.
  change (id l) with l.
  split_and!; [done| |].
  - destruct (1000 <? length l)%nat; cbn [fst]; by rewrite lookup_insert_eq.
  - intros u' Hne.
    destruct (1000 <? length l)%nat; cbn [fst];
      rewrite ?lookup_insert_ne by done;
      case_bool_decide; by rewrite ?lookup_insert_ne.
Qed.

Lemma logEvent_other {M} (userIdOf : M → option string) env lvl msg meta
    (logs : gmap string (list (LogEntry M))) :
  (∀ u, userIdOf meta = Some u → truthy u = false) →
  (logEvent userIdOf env lvl msg meta logs).1 = logs.
Proof.
  intros Hno. unfold logEvent. destruct (userIdOf meta) as [u|]; [|done].
  by rewrite (Hno u eq_refl).
Qed.

Lemma sliceLast_length {A} n (l : list A) : length (sliceLast n l) ≤ n.
Proof. unfold sliceLast. rewrite length_drop. lia. Qed.

(** X28.  The log of a user that has at most 1000 entries gets the new
    entry at its end; when it had 1000 the oldest entry is dropped and the
    others keep their order.  The entry stored is the one returned, with the
    level, the message and the metadata of the call, and the logs of all
    other users are untouched. *)
Theorem logEvent_appends {M} (userIdOf : M → option string) env lvl msg meta
    (logs : gmap string (list (LogEntry M))) u :
  userIdOf meta = Some u →
  truthy u = true →
  length (default [] (logs !! u)) ≤ 1000 →
  let old := default [] (logs !! u) in
  let entry := (logEvent userIdOf env lvl msg meta logs).2 in
  entry = mkLogEntry (isoNow env) lvl msg meta
  ∧ (logEvent userIdOf env lvl msg meta logs).1 !! u
    = Some (if decide (length old < 1000) then old ++ [entry]
            else drop 1 old ++ [entry])
  ∧ ∀ u', u' ≠ u →
      (logEvent userIdOf env lvl msg meta logs).1 !! u' = logs !! u'.
Proof.
  intros Hu Htruthy Hlen old entry.
  destruct (logEvent_lookup userIdOf env lvl msg meta logs u Hu Htruthy)
    as (Hentry & Hl & Hframe).
  subst entry. rewrite Hentry. split_and!; [done| |done].
  rewrite Hl. f_equal. fold old. rewrite length_app. cbn [length].
  destruct (decide (length old < 1000)) as [Hlt|Hge].
  - destruct (Nat.ltb_spec 1000 (length old + 1)); [lia | done].
  - destruct (Nat.ltb_spec 1000 (length old + 1)); [|lia].
    unfold sliceLast. rewrite length_app. cbn [length].
    replace (length old + 1 - 1000) with 1 by (subst old; lia).
    destruct old as [|x old']; [cbn [length] in *; lia | done].
Qed.

Lemma logEvent_appends_witness :
  let userIdOf := λ meta : option string, meta in
  let logs : gmap string (list (LogEntry (option string))) :=
    {["u2" := [mkLogEntry "t0" "info" "first" (Some "u2")]]} in
  let old := default [] (logs !! "u2") in
  let entry := (logEvent userIdOf sampleEnv "warn" "second" (Some "u2") logs).2 in
  entry = mkLogEntry (isoNow sampleEnv) "warn" "second" (Some "u2")
  ∧ (logEvent userIdOf sampleEnv "warn" "second" (Some "u2") logs).1 !! "u2"
    = Some (if decide (length old < 1000) then old ++ [entry]
            else drop 1 old ++ [entry])
  ∧ ∀ u', u' ≠ "u2" →
      (logEvent userIdOf sampleEnv "warn" "second" (Some "u2") logs).1 !! u'
      = logs !! u'.
Proof.
  intros userIdOf logs.
  apply (logEvent_appends userIdOf sampleEnv "warn" "second" (Some "u2") logs "u2");
    [reflexivity | reflexivity | vm_compute; lia].
Defined.

Lemma logEvent_bounded {M} (userIdOf : M → option string) env lvl msg meta
    (logs : gmap string (list (LogEntry M))) :
  (∀ u l, logs !! u = Some l → length l ≤ 1000) →
  ∀ u l, (logEvent userIdOf env lvl msg meta logs).1 !! u = Some l →
         length l ≤ 1000.
Proof.
  intros Hlogs u l.
  destruct (userIdOf meta) as [u0|] eqn:Hu0; cycle 1.
  { rewrite logEvent_other; [apply Hlogs|]. intros ?. by rewrite Hu0. }
  destruct (truthy u0) eqn:Htruthy; cycle 1.
  { rewrite logEvent_other; [apply Hlogs|]. intros ?. rewrite Hu0. by intros [= <-]. }
  destruct (logEvent_lookup userIdOf env lvl msg meta logs u0 Hu0 Htruthy)
    as (_ & Hl & Hframe).
  destruct (decide (u = u0)) as [->|Hne]; [|rewrite Hframe by done; apply Hlogs].
  rewrite Hl. intros [= <-].
  destruct (Nat.ltb_spec 1000
              (length (default [] (logs !! u0)
                       ++ [mkLogEntry (isoNow env) lvl msg meta])));
    [apply sliceLast_length | done].
Qed.

Lemma logAll_bounded {M} (userIdOf : M → option string) calls
    (logs : gmap string (list (LogEntry M))) :
  (∀ u l, logs !! u = Some l → length l ≤ 1000) →
  ∀ u l, logAll userIdOf calls logs !! u = Some l → length l ≤ 1000.
Proof.
  revert logs. induction calls as [|c calls IH]; intros logs Hlogs; [done|].
  unfold logAll. cbn [foldl]. apply IH. by apply logEvent_bounded.
Qed.

(** X29.  However many entries are logged, starting from an empty log, the
    log of a user never holds more than 1000 entries. *)
Theorem log_never_exceeds_1000 {M} (userIdOf : M → option string) calls u l :
  logAll userIdOf calls ∅ !! u = Some l → length l ≤ 1000.
Proof.
  apply logAll_bounded. intros u' l'. by rewrite lookup_empty.
Qed.

Lemma log_never_exceeds_1000_witness :
  length [mkLogEntry (isoNow sampleEnv) "info" "first" (Some "u2");
          mkLogEntry (isoNow sampleEnv) "warn" "second" (Some "u2")] ≤ 1000.
Proof.
  apply (log_never_exceeds_1000 (λ meta : option string, meta)
           [(sampleEnv, "info", "first", Some "u2");
            (sampleEnv, "error", "nobody", None);
            (sampleEnv, "warn", "second", Some "u2")] "u2").
  vm_compute. reflexivity.
Defined.

(** ** Capacity after an update *)

(** X30.  The capacity that an update has set is the one that the next
    registration is checked against: after an update answered 200 with a
    non-zero capacity [c], a user who is not yet a participant gets in when
    the event has fewer than [c] participants, and is answered
    [Event is full], with nothing changed, when it has exactly [c]. *)
Theorem update_capacity_then_register env env' userId eventId b db event c u :
  events db !! eventId = Some event →
  status (updateEvent env userId eventId b db).2 = 200 →
  b_capacity b = Some c →
  c ≠ 0%Z →
  u ∉ Event.participants event →
  let db' := (updateEvent env userId eventId b db).1 in
  (Event.size event ≤ c)%Z
  ∧ ((Event.size event < c)%Z →
     ∃ ev, events (register env' u eventId db').1 !! eventId = Some ev
           ∧ Event.participants ev = {[u]} ∪ Event.participants event
           ∧ Event.capacity ev = c)
  ∧ (Event.size event = c →
     register env' u eventId db' = (db', mkResponse 400 (Error "Event is full"))).
Proof.
  intros Hev (event' & Hev' & _ & Href & Hdb)%updateEvent_200_inv Hc Hne Hnot db'.
  rewrite Hev in Hev'. injection Hev' as <-.
  assert (Event.size event ≤ c)%Z as Hle.
  { revert Href. unfold capacity_refused. rewrite Hc.
    destruct (Z.eqb_spec c 0); [done|]. cbn [negb andb].
    destruct (Z.ltb_spec c (Event.size event)); [done | lia]. }
  assert (events db' !! eventId = Some (updatedEvent env b event)) as Hup.
  { subst db'. rewrite Hdb. cbn [set_events events]. apply lookup_insert_eq. }
  assert (Event.capacity (updatedEvent env b event) = c) as Hcap.
  { unfold updatedEvent, js_or_num. cbn [Event.capacity]. rewrite Hc.
    by destruct (Z.eqb_spec c 0). }
  split_and!; [done| |].
  - intros Hlt. eexists.
    rewrite register_store,
      (register_begin_commits _ _ _ (updatedEvent env b event)); [| done | | done].
    + cbn [events]. rewrite lookup_insert_eq. split_and!; [done..|].
      cbn [Event.add_participant Event.capacity]. exact Hcap.
    + rewrite Hcap. exact Hlt.
  - intros Heq. unfold register, register_begin. rewrite Hup, Hcap.
    change (Event.size (updatedEvent env b event)) with (Event.size event).
    destruct (Z.leb_spec c (Event.size event)); [done | lia].
Qed.

Lemma update_capacity_then_register_witness :
  let db := mkDb [] {[sampleId := sampleEvent 2 {["u1"; "u2"]}]} ∅ in
  let event := sampleEvent 2 {["u1"; "u2"]} in
  let db' := (updateEvent sampleEnv "owner" sampleId (sampleBody 3) db).1 in
  (Event.size event ≤ 3)%Z
  ∧ ((Event.size event < 3)%Z →
     ∃ ev, events (register noMailEnv "u3" sampleId db').1 !! sampleId = Some ev
           ∧ Event.participants ev = {["u3"]} ∪ Event.participants event
           ∧ Event.capacity ev = 3%Z)
  ∧ (Event.size event = 3%Z →
     register noMailEnv "u3" sampleId db'
     = (db', mkResponse 400 (Error "Event is full"))).
Proof.
  intros db event.
  apply (update_capacity_then_register sampleEnv noMailEnv "owner" sampleId
           (sampleBody 3) db event 3 "u3");
    [vm_compute; reflexivity | vm_compute; reflexivity | reflexivity
    | discriminate | vm_compute; intros [=]].
Defined.
